(** * run_eval.py: the speech-recognition evaluation driver

    A shallow embedding of [src/transformers/run_eval.py]: the command-line
    parser of the [__main__] block, the nested function [benchmark] and the
    driver [main], followed by the properties of the driver.

    The script is a chain of calls into third-party libraries (transformers,
    datasets, evaluate) and into the repository's [normalizer.data_utils]
    module.  Their results are not computed here: they are the fields of a
    [Library] record, each a function that either returns a value or raises.
    What the script itself does, namely the control flow, the arithmetic on
    timings, the accumulation of the result lists and the output it
    produces, is written out. *)

From Stdlib Require Import ZArith QArith Qcanon Qround Ascii String Bool Lia Lqa Floats List.
Import ListNotations.
Local Open Scope string_scope.
Local Open Scope list_scope.
Local Open Scope Z_scope.

Set Implicit Arguments.

(** ** Exceptions and results *)

Inductive exn : Type :=
| ZeroDivisionError
| IndexError
| NameError
| ValueError
| SystemExit (code : Z)
| LibraryError (what : string).

Inductive result (A : Type) : Type :=
| Ok (a : A)
| Raise (e : exn).
Arguments Ok {A} a.
Arguments Raise {A} e.

(** ** Python numbers

    The script computes on Python floats with [+], [-], [*], [/] and
    [round(_, 2)].  The operations are an interface with two instances below:
    binary64 floating point, which is what CPython runs, and exact rationals,
    the idealisation in which algebraic facts are stated. *)

Class PyFloat (F : Type) : Type := {
  of_int : Z -> F;           (* float(n) for an int n *)
  fadd : F -> F -> F;
  fsub : F -> F -> F;
  fmul : F -> F -> F;
  fquot : F -> F -> F;       (* the quotient, for a non-zero divisor *)
  is_zero : F -> bool;       (* x == 0 *)
  round2 : F -> F;           (* round(x, 2) *)
  is_zero_0 : is_zero (of_int 0) = true
}.

Section Numbers.
Context {F : Type} `{PyFloat F}.

(** [x / y]: Python raises on a zero divisor, for ints and floats alike. *)
Definition truediv (x y : F) : result F :=
  if is_zero y then Raise ZeroDivisionError else Ok (fquot x y).

(** [sum(xs)]: a left fold that starts from the int [0]. *)
Definition py_sum (xs : list F) : F := fold_left fadd xs (of_int 0).
End Numbers.

(** Rounding to the nearest integer, ties to the even one. *)
Definition round_half_even (q : Q) : Z :=
  let f := Qfloor q in
  match Qcompare (q - inject_Z f) (1 # 2) with
  | Lt => f
  | Gt => f + 1
  | Eq => if Z.even f then f else f + 1
  end.

(** *** Exact rationals *)

Definition Qc_of_Z (z : Z) : Qc := Q2Qc (inject_Z z).

Definition Qc_round2 (x : Qc) : Qc :=
  Q2Qc (inject_Z (round_half_even (100 * x)) / 100).

#[export] Instance PyFloat_Qc : PyFloat Qc := {
  of_int := Qc_of_Z;
  fadd := Qcplus;
  fsub := Qcminus;
  fmul := Qcmult;
  fquot := Qcdiv;
  is_zero := fun x => Qc_eq_bool x (Qc_of_Z 0);
  round2 := Qc_round2;
  is_zero_0 := eq_refl
}.

(** *** binary64 *)

Definition float_of_Z (z : Z) : float :=
  match z with
  | Z0 => 0%float
  | Zpos _ => PrimFloat.of_uint63 (Uint63.of_Z z)
  | Zneg p => PrimFloat.opp (PrimFloat.of_uint63 (Uint63.of_Z (Zpos p)))
  end.

(** [round(x, 2)] is correctly rounded: the decimal with two digits nearest
    to the exact value of [x] (ties to even), then the float nearest to that
    decimal, with the sign of [x].  From 2^46 on, neighbouring floats are
    more than 0.01 apart and [x] is returned as it is; below, [100 * |x|]
    rounds to an integer under 2^53, which the division by 100 rounds
    correctly.  Zeros, infinities and NaN are returned as they are. *)
Definition float_round2 (x : float) : float :=
  match Prim2SF x with
  | S754_finite s m e =>
      if PrimFloat.leb 0x1p46%float (PrimFloat.abs x) then x
      else
        let v := (inject_Z (Zpos m) * Qpower 2 e)%Q in
        let r := PrimFloat.div (float_of_Z (round_half_even (100 * v))) 100%float in
        if s then PrimFloat.opp r else r
  | _ => x
  end.

#[export] Instance PyFloat_binary64 : PyFloat float := {
  of_int := float_of_Z;
  fadd := PrimFloat.add;
  fsub := PrimFloat.sub;
  fmul := PrimFloat.mul;
  fquot := PrimFloat.div;
  is_zero := fun x => PrimFloat.eqb x 0%float;
  round2 := float_round2;
  is_zero_0 := eq_refl
}.

(** ** Data *)

(** The parsed command line ([args]). *)
Record namespace : Type := {
  model_id : string;
  dataset_path : string;
  dataset : string;
  split : string;
  device : Z;
  batch_size : Z;
  max_eval_samples : option Z;
  streaming : bool
}.

(** A row of the prepared dataset: the waveform ([audio["array"]]), the
    normalised reference and the audio duration. *)
Record sample (F : Type) : Type := {
  s_audio : list F;
  s_norm_text : string;
  s_audio_length_s : F
}.

(** A batch as [benchmark] receives it: one list per column. *)
Record batch (F : Type) : Type := {
  b_audio : list (list F);
  b_norm_text : list string;
  b_audio_length_s : list F
}.

(** The batch as [benchmark] returns it: three columns added. *)
Record mapped_batch (F : Type) : Type := {
  m_audio : list (list F);
  m_norm_text : list string;
  m_audio_length_s : list F;
  m_transcription_time_s : list F;
  m_predictions : list string;
  m_references : list string
}.

(** A row of the mapped dataset, the [audio] column removed. *)
Record result_row (F : Type) : Type := {
  r_norm_text : string;
  r_audio_length_s : F;
  r_transcription_time_s : F;
  r_predictions : string;
  r_references : string
}.

(** The accumulator [all_results]. *)
Record all_results (F : Type) : Type := {
  audio_length_s : list F;
  transcription_time_s : list F;
  predictions : list string;
  references : list string
}.

Inductive auto_class : Type := AutoModelForSpeechSeq2Seq | AutoModelForCTC.
Inductive torch_dtype : Type := float16.

Record gen_kwargs : Type := {
  max_new_tokens : Z;
  language : option string;
  task : option string
}.

(** The keyword arguments of the two [processor(...)] calls; [None] is an
    argument that is not passed. *)
Record processor_kwargs : Type := {
  sampling_rate : Z;
  truncation : option bool;
  padding : option string;
  return_tensors : string;
  return_attention_mask : option bool
}.

(** ** The libraries

    Every function of transformers, datasets, evaluate, os and
    [normalizer.data_utils] that the script calls.  Attribute reads that can
    fail ([n_samples], [is_multilingual]) are calls too. *)
Record Library (F : Type) : Type := {
  config : Type;
  model : Type;
  processor : Type;
  features : Type;
  token_ids : Type;
  raw_row : Type;
  AutoConfig_from_pretrained : string -> result config;
  in_speech_seq2seq_mapping : config -> bool;
  from_pretrained : auto_class -> string -> torch_dtype -> result model;
  model_to : model -> Z -> result model;
  AutoProcessor_from_pretrained : string -> result processor;
  model_input_names : processor -> list string;
  can_generate : model -> bool;
  is_multilingual : model -> result bool;
  load_data : namespace -> result (list raw_row);
  prepare_data : list raw_row -> result (list (sample F));
  n_samples : processor -> result Z;
  processor_call : processor -> list (list F) -> processor_kwargs -> result features;
  features_to : features -> Z -> result features;
  features_cast : features -> string -> torch_dtype -> result features;
  generate : model -> features -> gen_kwargs -> result token_ids;
  forward_argmax : model -> features -> result token_ids;
  batch_decode : processor -> token_ids -> result (list string);
  normalizer : string -> result string;
  write_manifest :
    list string -> list string -> string -> string -> string -> string ->
    list F -> list F -> result string;
  abspath : string -> string;
  wer_compute : list string -> list string -> result F
}.

(** ** The world: the wall clock and what the run does to its environment *)

(** Lines written to standard output. *)
Inductive line (F : Type) : Type :=
| Subsampling (n : Z)                (* Subsampling dataset to first n samples! *)
| ResultsSaved (path : string)       (* Results saved at path: path *)
| Summary (wer rtfx : F).            (* WER: wer % RTFx: rtfx *)
Arguments Subsampling {F} n.
Arguments ResultsSaved {F} path.

Inductive event (F : Type) : Type :=
| Printed (l : line F)
| Called (f : string)
| CalledWriteManifest
    (refs preds : list string) (model_id dataset_path dataset split : string)
    (audio_length transcription_time : list F)
| CalledWer (refs preds : list string)
| Raised (e : exn).
Arguments Called {F} f.
Arguments CalledWer {F} refs preds.
Arguments Raised {F} e.

(** [wall k] is what the [k]-th call of [time.time()] returns; [trace] is in
    chronological order. *)
Record world (F : Type) : Type := {
  wall : nat -> F;
  ticks : nat;
  trace : list (event F)
}.

Definition M (F A : Type) : Type := world F -> result A * world F.

Section Monad.
Context {F : Type}.

Definition ret {A} (a : A) : M F A := fun w => (Ok a, w).

Definition bind {A B} (m : M F A) (k : A -> M F B) : M F B :=
  fun w =>
    match m w with
    | (Ok a, w') => k a w'
    | (Raise e, w') => (Raise e, w')
    end.

Definition emit (evs : list (event F)) (w : world F) : world F :=
  {| wall := wall w; ticks := ticks w; trace := trace w ++ evs |}.

(** An exception of the script's own code. *)
Definition raise {A} (e : exn) : M F A := fun w => (Raise e, w).

Definition lift {A} (r : result A) : M F A := fun w => (r, w).

(** A library call: the call is observed, and so is what it raises. *)
Definition observe {A} (ev : event F) (r : result A) : M F A :=
  fun w =>
    match r with
    | Ok a => (Ok a, emit [ev] w)
    | Raise e => (Raise e, emit [ev; Raised e] w)
    end.

Definition call {A} (f : string) (r : result A) : M F A := observe (Called f) r.

Definition print (l : line F) : M F unit := fun w => (Ok tt, emit [Printed l] w).

(** [time.time()] *)
Definition time_time : M F F :=
  fun w => (Ok (wall w (ticks w)),
            {| wall := wall w; ticks := S (ticks w); trace := trace w |}).

Fixpoint mapM {A B} (f : A -> M F B) (l : list A) : M F (list B) :=
  match l with
  | [] => ret []
  | x :: l' => bind (f x) (fun y => bind (mapM f l') (fun ys => ret (y :: ys)))
  end.
End Monad.

Notation "x <- m ;; k" := (bind m (fun x => k))
  (at level 61, m at next level, right associativity).
Notation "m ;;; k" := (bind m (fun _ => k))
  (at level 61, right associativity).

(** ** The datasets library: [take] and the batched [map] *)

Section Datasets.
Context {A : Type}.

(** [dataset.take(n)], as on the streamed dataset the script loads: the
    first [n] rows, all of them when there are fewer. *)
Definition take (n : Z) (rows : list A) : list A := firstn (Z.to_nat n) rows.

(** Consecutive batches of [n] rows, the last one possibly shorter; [cur]
    is the batch being filled (latest row first) and [room] the number of
    rows it still takes. *)
Fixpoint chunks (n room : nat) (cur rows : list A) : list (list A) :=
  match rows with
  | [] => match cur with [] => [] | _ => [rev cur] end
  | x :: rows' =>
      match room with
      | S (S r) => chunks n (S r) (x :: cur) rows'
      | _ => rev (x :: cur) :: chunks n n [] rows'
      end
  end.

(** The batches a batched [map] hands to its function: a [batch_size] that
    is not positive means the whole dataset as one batch. *)
Definition iter_batches (batch_size : Z) (rows : list A) : list (list A) :=
  if batch_size <=? 0 then
    match rows with [] => [] | _ => [rows] end
  else chunks (Z.to_nat batch_size) (Z.to_nat batch_size) [] rows.
End Datasets.

Section Columns.
Context {F : Type}.

Definition to_batch (rows : list (sample F)) : batch F :=
  {| b_audio := map (@s_audio F) rows;
     b_norm_text := map (@s_norm_text F) rows;
     b_audio_length_s := map (@s_audio_length_s F) rows |}.

Fixpoint zip_rows (nt : list string) (al tt : list F) (pr rf : list string)
  : list (result_row F) :=
  match nt, al, tt, pr, rf with
  | a :: nt', b :: al', c :: tt', d :: pr', e :: rf' =>
      {| r_norm_text := a; r_audio_length_s := b; r_transcription_time_s := c;
         r_predictions := d; r_references := e |}
      :: zip_rows nt' al' tt' pr' rf'
  | _, _, _, _, _ => []
  end.

(** What [map] does with the batch its function returned: the columns of
    [remove_columns] are dropped, the remaining ones must have one length
    (a [ValueError] otherwise), and the batch is split into rows again. *)
Definition to_examples (mb : mapped_batch F) : result (list (result_row F)) :=
  let n := length (m_norm_text mb) in
  if (length (m_audio_length_s mb) =? n)%nat
     && (length (m_transcription_time_s mb) =? n)%nat
     && (length (m_predictions mb) =? n)%nat
     && (length (m_references mb) =? n)%nat
  then Ok (zip_rows (m_norm_text mb) (m_audio_length_s mb)
             (m_transcription_time_s mb) (m_predictions mb) (m_references mb))
  else Raise ValueError.

(** The loop that fills [all_results]: every key gets the row's value. *)
Definition append_row (acc : all_results F) (r : result_row F) : all_results F :=
  {| audio_length_s := audio_length_s acc ++ [r_audio_length_s r];
     transcription_time_s := transcription_time_s acc ++ [r_transcription_time_s r];
     predictions := predictions acc ++ [r_predictions r];
     references := references acc ++ [r_references r] |}.

Definition empty_results : all_results F :=
  {| audio_length_s := []; transcription_time_s := [];
     predictions := []; references := [] |}.

Definition collect (rows : list (result_row F)) : all_results F :=
  fold_left append_row rows empty_results.
End Columns.

(** ** The driver *)

(** 1.1 CTC or long-form Whisper pre-processing. *)
Definition kwargs_longest : processor_kwargs :=
  {| sampling_rate := 16000; truncation := Some false; padding := Some "longest";
     return_tensors := "pt"; return_attention_mask := Some true |}.

(** 1.2 Standard Whisper pre-processing. *)
Definition kwargs_standard : processor_kwargs :=
  {| sampling_rate := 16000; truncation := None; padding := None;
     return_tensors := "pt"; return_attention_mask := None |}.

Section Driver.
Context {F : Type} {PF : PyFloat F} (lib : Library F).

(** The condition of line 45.  [or] is lazy: [audios[0]] and [n_samples]
    are read only for a model that can generate. *)
Definition use_longest (mdl : model lib) (proc : processor lib)
    (audios : list (list F)) : M F bool :=
  if negb (can_generate lib mdl) then ret true
  else
    first <- match audios with
             | [] => raise IndexError
             | a :: _ => ret a
             end ;;
    n <- call "processor.feature_extractor.n_samples" (n_samples lib proc) ;;
    ret (Z.of_nat (List.length first) >? n).

(** Lines 45-57: the two [processor(...)] calls. *)
Definition preprocess (mdl : model lib) (proc : processor lib)
    (audios : list (list F)) : M F (features lib) :=
  longest <- use_longest mdl proc audios ;;
  if longest : bool
  then call "processor" (processor_call lib proc audios kwargs_longest)
  else call "processor" (processor_call lib proc audios kwargs_standard).

(** Lines 44-73, the timed part of [benchmark]: pre-processing, model
    inference and decoding of the token ids to text. *)
Definition transcribe (args : namespace) (mdl : model lib) (proc : processor lib)
    (model_input_name : string) (gen : option gen_kwargs)
    (audios : list (list F)) : M F (list string) :=
  inputs <- preprocess mdl proc audios ;;
  inputs <- call "inputs.to" (features_to lib inputs (device args)) ;;
  inputs <- call "inputs[model_input_name].to"
    (features_cast lib inputs model_input_name float16) ;;
  pred_ids <-
    (if can_generate lib mdl then
       kw <- match gen with
             | Some kw => ret kw
             | None => raise NameError
             end ;;
       call "model.generate" (generate lib mdl inputs kw)
     else call "model" (forward_argmax lib mdl inputs)) ;;
  call "processor.batch_decode" (batch_decode lib proc pred_ids).

(** [benchmark], with the variables of [main] it closes over as its first
    arguments. *)
Definition benchmark (args : namespace) (mdl : model lib) (proc : processor lib)
    (model_input_name : string) (gen : option gen_kwargs)
    (b : batch F) : M F (mapped_batch F) :=
  let audios := b_audio b in
  let minibatch_size := Z.of_nat (List.length audios) in
  start_time <- time_time ;;
  pred_text <- transcribe args mdl proc model_input_name gen audios ;;
  end_time <- time_time ;;
  let runtime := fsub end_time start_time in
  per_sample <- lift (truediv runtime (of_int minibatch_size)) ;;
  let times := repeat per_sample (Z.to_nat minibatch_size) in
  preds <- mapM (fun pred => call "data_utils.normalizer" (normalizer lib pred))
                pred_text ;;
  ret {| m_audio := b_audio b;
         m_norm_text := b_norm_text b;
         m_audio_length_s := b_audio_length_s b;
         m_transcription_time_s := times;
         m_predictions := preds;
         m_references := b_norm_text b |}.

(** [dataset.map(benchmark, batch_size=..., batched=True,
    remove_columns=["audio"])], run to the end of the dataset.  A streamed
    dataset runs [benchmark] only while line 97 iterates over the rows; the
    loop body has no effect of its own, so the calls and the clock readings
    come in this order either way. *)
Definition map_batched (f : batch F -> M F (mapped_batch F)) (batch_size : Z)
    (rows : list (sample F)) : M F (list (result_row F)) :=
  per_batch <- mapM (fun rs => mb <- f (to_batch rs) ;;
                               call "dataset.map" (to_examples mb))
                    (iter_batches batch_size rows) ;;
  ret (concat per_batch).

(** Lines 21-26: [gen_kwargs] is bound only for a model that can generate. *)
Definition make_gen_kwargs (mdl : model lib) : M F (option gen_kwargs) :=
  if can_generate lib mdl then
    multilingual <- call "model.generation_config.is_multilingual"
                         (is_multilingual lib mdl) ;;
    ret (Some (if multilingual : bool
               then {| max_new_tokens := 256; language := Some "en";
                       task := Some "transcribe" |}
               else {| max_new_tokens := 256; language := None; task := None |}))
  else ret None.

(** Lines 30-32. *)
Definition subsample (args : namespace) (ds : list (raw_row lib))
  : M F (list (raw_row lib)) :=
  match max_eval_samples args with
  | Some n =>
      if n >? 0 then print (Subsampling n) ;;; ret (take n ds) else ret ds
  | None => ret ds
  end.

(** Lines 15-99 of [main]: from the model load to the filled [all_results]. *)
Definition evaluate (args : namespace) : M F (all_results F) :=
  cfg <- call "AutoConfig.from_pretrained"
              (AutoConfig_from_pretrained lib (model_id args)) ;;
  let cls_model := if in_speech_seq2seq_mapping lib cfg
                   then AutoModelForSpeechSeq2Seq else AutoModelForCTC in
  mdl <- call "cls_model.from_pretrained"
              (from_pretrained lib cls_model (model_id args) float16) ;;
  mdl <- call "model.to" (model_to lib mdl (device args)) ;;
  proc <- call "AutoProcessor.from_pretrained"
               (AutoProcessor_from_pretrained lib (model_id args)) ;;
  model_input_name <- match model_input_names lib proc with
                      | [] => raise IndexError
                      | name :: _ => ret name
                      end ;;
  gen <- make_gen_kwargs mdl ;;
  ds <- call "data_utils.load_data" (load_data lib args) ;;
  ds <- subsample args ds ;;
  ds <- call "data_utils.prepare_data" (prepare_data lib ds) ;;
  rows <- map_batched (benchmark args mdl proc model_input_name gen)
                      (batch_size args) ds ;;
  ret (collect rows).

(** [round(sum(audio_length_s) / sum(transcription_time_s), 2)] *)
Definition rtfx_of (audio_length transcription_time : list F) : result F :=
  match truediv (py_sum audio_length) (py_sum transcription_time) with
  | Ok q => Ok (round2 q)
  | Raise e => Raise e
  end.

(** Lines 101-119 of [main]: the manifest and the summary line. *)
Definition report (args : namespace) (res : all_results F) : M F unit :=
  manifest_path <-
    observe (CalledWriteManifest (references res) (predictions res)
               (model_id args) (dataset_path args) (dataset args) (split args)
               (audio_length_s res) (transcription_time_s res))
            (write_manifest lib (references res) (predictions res)
               (model_id args) (dataset_path args) (dataset args) (split args)
               (audio_length_s res) (transcription_time_s res)) ;;
  print (ResultsSaved (abspath lib manifest_path)) ;;;
  wer <- observe (CalledWer (references res) (predictions res))
                 (wer_compute lib (references res) (predictions res)) ;;
  let wer := round2 (fmul (of_int 100) wer) in
  rtfx <- lift (rtfx_of (audio_length_s res) (transcription_time_s res)) ;;
  print (Summary wer rtfx).

Definition main (args : namespace) : M F unit :=
  res <- evaluate args ;;
  report args res.
End Driver.

(** ** The command line

    [argparse], as far as the [__main__] block uses it.  The command line is
    taken as argparse reads it: a sequence of option occurrences, each the
    option string it matched (an abbreviation counts as the option it
    abbreviates) with the argument that goes with it, if any.

    Of argparse this is the part the properties below are about: the help
    action is known by [--help] only, the first option that is not known
    ends the parse with an error, and an integer argument is a decimal
    numeral with an optional sign.  argparse accepts more ([-h], digits
    grouped with underscores, surrounding blanks); such command lines are
    rejected here, so the properties of accepted command lines are about
    fewer of them than argparse accepts. *)

Module Argparse.

Inductive value : Type :=
| VNone
| VBool (b : bool)
| VInt (z : Z)
| VStr (s : string).

Inductive arg_type : Type := TStr | TInt.

Inductive action_kind : Type :=
| Store (ty : arg_type)
| StoreFalse
| Help.

(** [default = None] is [argparse.SUPPRESS]: no attribute is created. *)
Record action : Type := {
  option_string : string;
  dest : string;
  kind : action_kind;
  default : option value;
  required : bool
}.

Record parser : Type := {
  actions : list action;
  defaults : list (string * value)
}.

(** The attributes of a [Namespace], in the order they were first set. *)
Definition attrs : Type := list (string * value).

Fixpoint getattr (ns : attrs) (name : string) : option value :=
  match ns with
  | [] => None
  | (k, v) :: ns' => if String.eqb k name then Some v else getattr ns' name
  end.

Fixpoint setattr (ns : attrs) (name : string) (v : value) : attrs :=
  match ns with
  | [] => [(name, v)]
  | (k, v') :: ns' =>
      if String.eqb k name then (k, v) :: ns' else (k, v') :: setattr ns' name v
  end.

Definition hasattr (ns : attrs) (name : string) : bool :=
  match getattr ns name with Some _ => true | None => false end.

(** [ArgumentParser()]: only the help action. *)
Definition ArgumentParser : parser :=
  {| actions := [ {| option_string := "--help"; dest := "help"; kind := Help;
                     default := None; required := false |} ];
     defaults := [] |}.

(** [add_argument]: when the call gives no default ([None] here), a
    parser-level default for the destination is used, then the action's
    own ([True] for [store_false], [None] otherwise). *)
Definition add_argument (p : parser) (opt dst : string) (k : action_kind)
    (dflt : option value) (req : bool) : parser :=
  let d := match dflt with
           | Some v => v
           | None =>
               match getattr (defaults p) dst with
               | Some v => v
               | None => match k with StoreFalse => VBool true | _ => VNone end
               end
           end in
  {| actions := actions p ++ [ {| option_string := opt; dest := dst; kind := k;
                                  default := Some d; required := req |} ];
     defaults := defaults p |}.

(** [set_defaults(dst=v)]: the parser-level default is recorded and the
    default of every action with that destination is replaced. *)
Definition set_defaults (p : parser) (dst : string) (v : value) : parser :=
  {| actions :=
       map (fun a => if String.eqb (dest a) dst
                     then {| option_string := option_string a; dest := dest a;
                             kind := kind a; default := Some v;
                             required := required a |}
                     else a) (actions p);
     defaults := setattr (defaults p) dst v |}.

(** The namespace before any argument is read: the action defaults, then
    the parser-level defaults, each only where no attribute exists yet. *)
Definition initial_namespace (p : parser) : attrs :=
  let ns :=
    fold_left (fun ns a =>
                 match default a with
                 | Some v => if hasattr ns (dest a) then ns else setattr ns (dest a) v
                 | None => ns
                 end) (actions p) [] in
  fold_left (fun ns kv => if hasattr ns (fst kv) then ns
                          else setattr ns (fst kv) (snd kv)) (defaults p) ns.

Fixpoint find_action (acts : list action) (opt : string) : option action :=
  match acts with
  | [] => None
  | a :: acts' =>
      if String.eqb (option_string a) opt then Some a else find_action acts' opt
  end.

(** [int(s)] for a decimal literal with an optional sign. *)
Fixpoint digits (s : string) (acc : Z) : option Z :=
  match s with
  | EmptyString => Some acc
  | String c s' =>
      let n := Z.of_nat (Ascii.nat_of_ascii c) in
      if (48 <=? n) && (n <=? 57) then digits s' (10 * acc + (n - 48)) else None
  end.

Definition int_of_string (s : string) : option Z :=
  match s with
  | EmptyString => None
  | String "-"%char (String c r) => option_map Z.opp (digits (String c r) 0)
  | String "+"%char (String c r) => digits (String c r) 0
  | _ => digits s 0
  end.

Definition convert (ty : arg_type) (s : string) : option value :=
  match ty with
  | TStr => Some (VStr s)
  | TInt => option_map VInt (int_of_string s)
  end.

(** An error of the parser prints the usage and exits with status 2. *)
Definition parser_error {A} : result A := Raise (SystemExit 2).

(** The option occurrences are taken in order; [seen] collects the
    destinations of the actions taken. *)
Fixpoint take_actions (acts : list action) (argv : list (string * option string))
    (ns : attrs) (seen : list string) : result (attrs * list string) :=
  match argv with
  | [] => Ok (ns, seen)
  | (opt, arg) :: argv' =>
      match find_action acts opt with
      | None => parser_error
      | Some a =>
          match kind a, arg with
          | Store ty, Some s =>
              match convert ty s with
              | Some v => take_actions acts argv' (setattr ns (dest a) v) (dest a :: seen)
              | None => parser_error
              end
          | Store _, None => parser_error
          | StoreFalse, None =>
              take_actions acts argv' (setattr ns (dest a) (VBool false)) (dest a :: seen)
          | StoreFalse, Some _ => parser_error
          | Help, _ => Raise (SystemExit 0)
          end
      end
  end.

Definition missing_required (acts : list action) (seen : list string) : bool :=
  existsb (fun a => required a && negb (existsb (String.eqb (dest a)) seen)) acts.

Definition parse_args (p : parser) (argv : list (string * option string))
  : result attrs :=
  match take_actions (actions p) argv (initial_namespace p) [] with
  | Ok (ns, seen) =>
      if missing_required (actions p) seen then parser_error else Ok ns
  | Raise e => Raise e
  end.

(** The eight [add_argument] calls of the script, lines 125-173. *)
Definition script_parser : parser :=
  let p := ArgumentParser in
  let p := add_argument p "--model_id" "model_id" (Store TStr) None true in
  let p := add_argument p "--dataset_path" "dataset_path" (Store TStr)
                        (Some (VStr "esb/datasets")) false in
  let p := add_argument p "--dataset" "dataset" (Store TStr) None true in
  let p := add_argument p "--split" "split" (Store TStr) (Some (VStr "test")) false in
  let p := add_argument p "--device" "device" (Store TInt) (Some (VInt (-1))) false in
  let p := add_argument p "--batch_size" "batch_size" (Store TInt)
                        (Some (VInt 16)) false in
  let p := add_argument p "--max_eval_samples" "max_eval_samples" (Store TInt)
                        None false in
  add_argument p "--no-streaming" "streaming" StoreFalse None false.

(** Lines 174-175: the parsed arguments, and the parser as
    [set_defaults(streaming=False)] leaves it afterwards. *)
Definition script_args (argv : list (string * option string))
  : result attrs * parser :=
  let p := script_parser in
  let args := parse_args p argv in
  let p := set_defaults p "streaming" (VBool false) in
  (args, p).

(** The attributes [main] reads, as a record. *)
Definition to_namespace (ns : attrs) : option namespace :=
  match getattr ns "model_id", getattr ns "dataset_path", getattr ns "dataset",
        getattr ns "split", getattr ns "device", getattr ns "batch_size",
        getattr ns "max_eval_samples", getattr ns "streaming" with
  | Some (VStr m), Some (VStr dp), Some (VStr d), Some (VStr sp),
    Some (VInt dev), Some (VInt bs), Some mx, Some (VBool st) =>
      match mx with
      | VNone => Some (Build_namespace m dp d sp dev bs None st)
      | VInt n => Some (Build_namespace m dp d sp dev bs (Some n) st)
      | _ => None
      end
  | _, _, _, _, _, _, _, _ => None
  end.

(** An option occurrence that is [--no-streaming]. *)
Definition is_no_streaming (o : string * option string) : bool :=
  String.eqb (fst o) "--no-streaming".

(** In a list of actions like the script's, the destination [streaming]
    belongs to [--no-streaming] alone, a [store_false] action. *)
Definition streaming_actions (acts : list action) : Prop :=
  forall opt a,
    find_action acts opt = Some a ->
    if String.eqb opt "--no-streaming"
    then dest a = "streaming" /\ kind a = StoreFalse
    else String.eqb (dest a) "streaming" = false.

(** [occurs opt argv]: the option string [opt] is on the command line. *)
Definition occurs (opt : string) (argv : list (string * option string)) : bool :=
  existsb (fun o => String.eqb (fst o) opt) argv.

(** The value the occurrences of a [store] option leave in its attribute,
    starting from [cur]: that of the last occurrence. *)
Fixpoint last_value (opt : string) (ty : arg_type)
    (argv : list (string * option string)) (cur : option value) : option value :=
  match argv with
  | [] => cur
  | (o, arg) :: argv' =>
      if String.eqb o opt
      then last_value opt ty argv'
             (match arg with Some s => convert ty s | None => None end)
      else last_value opt ty argv' cur
  end.

(** In the list of actions, [opt] is the one option that writes the
    attribute [dst], with an action of kind [k]. *)
Definition owns (acts : list action) (opt dst : string) (k : action_kind) : Prop :=
  forall opt' a,
    find_action acts opt' = Some a ->
    if String.eqb opt' opt
    then dest a = dst /\ kind a = k
    else String.eqb (dest a) dst = false.

(** The [store] options of the script: option string, attribute, type. *)
Definition store_options : list (string * string * arg_type) :=
  [ ("--model_id", "model_id", TStr);
    ("--dataset_path", "dataset_path", TStr);
    ("--dataset", "dataset", TStr);
    ("--split", "split", TStr);
    ("--device", "device", TInt);
    ("--batch_size", "batch_size", TInt);
    ("--max_eval_samples", "max_eval_samples", TInt) ].

(** A command line for the examples. *)
Definition demo_argv : list (string * option string) :=
  [("--model_id", Some "openai/whisper-tiny.en"); ("--dataset", Some "librispeech");
   ("--batch_size", Some "2")].

End Argparse.

(** ** The script: the [__main__] block and the exit status of the process *)

Section Script.
Context {F : Type} {PF : PyFloat F} (lib : Library F).

Definition script (argv : list (string * option string)) : M F unit :=
  ns <- lift (fst (Argparse.script_args argv)) ;;
  match Argparse.to_namespace ns with
  | Some args => main lib args
  | None => raise (LibraryError "AttributeError")
  end.

(** An uncaught exception ends the process with status 1, [SystemExit]
    with its own code. *)
Definition exit_status (r : result unit) : Z :=
  match r with
  | Ok _ => 0
  | Raise (SystemExit c) => c
  | Raise _ => 1
  end.
End Script.

(** ** A small library to run the script on

    A stand-in for the real libraries, used for the concrete runs below: the
    dataset is given, a waveform is transcribed as [yes] when its first
    value is not zero and as [no] otherwise, and [faults] makes a chosen
    call raise. *)

Section Toy.
Context {F : Type} {PF : PyFloat F}.

Definition heard (a : list F) : string :=
  match a with
  | [] => ""
  | x :: _ => if is_zero x then "no" else "yes"
  end.

Fixpoint mismatches (refs preds : list string) : Z :=
  match refs, preds with
  | r :: refs', p :: preds' =>
      (if String.eqb r p then 0 else 1) + mismatches refs' preds'
  | _, _ => 0
  end.

Definition toy_library (generative : bool) (limit : Z) (data : list (sample F))
    (faults : string -> option exn) : Library F :=
  let guard {A : Type} (f : string) (r : result A) : result A :=
    match faults f with Some e => Raise e | None => r end in
  {| config := unit;
     model := unit;
     processor := unit;
     features := list (list F) * processor_kwargs;
     token_ids := list (list F);
     raw_row := sample F;
     AutoConfig_from_pretrained := fun _ => guard "config" (Ok tt);
     in_speech_seq2seq_mapping := fun _ => generative;
     from_pretrained := fun _ _ _ => guard "model" (Ok tt);
     model_to := fun m _ => guard "to" (Ok m);
     AutoProcessor_from_pretrained := fun _ => guard "processor" (Ok tt);
     model_input_names := fun _ => ["input_features"];
     can_generate := fun _ => generative;
     is_multilingual := fun _ => guard "is_multilingual" (Ok true);
     load_data := fun _ => guard "load_data" (Ok data);
     prepare_data := fun ds => guard "prepare_data" (Ok ds);
     n_samples := fun _ => guard "n_samples" (Ok limit);
     processor_call := fun _ audios kw => guard "preprocess" (Ok (audios, kw));
     features_to := fun x _ => guard "inputs.to" (Ok x);
     features_cast := fun x _ _ => guard "inputs.half" (Ok x);
     generate := fun _ x _ => guard "generate" (Ok (fst x));
     forward_argmax := fun _ x => guard "forward" (Ok (fst x));
     batch_decode := fun _ ids => guard "batch_decode" (Ok (map heard ids));
     normalizer := fun s => guard "normalizer" (Ok s);
     write_manifest := fun _ _ _ _ _ _ _ _ => guard "write_manifest" (Ok "manifest.jsonl");
     abspath := fun p => String.append "/results/" p;
     wer_compute := fun refs preds =>
       guard "wer" (truediv (of_int (mismatches refs preds))
                            (of_int (Z.of_nat (List.length refs)))) |}.

Definition no_faults : string -> option exn := fun _ => None.

Definition fault_at (f : string) (e : exn) : string -> option exn :=
  fun g => if String.eqb f g then Some e else None.

(** The world when the process starts. *)
Definition boot (clock : nat -> F) : world F :=
  {| wall := clock; ticks := 0; trace := [] |}.
End Toy.

Definition toy_args (cap : option Z) (bs : Z) : namespace :=
  {| model_id := "openai/whisper-tiny.en"; dataset_path := "esb/datasets";
     dataset := "librispeech"; split := "test"; device := -1;
     batch_size := bs; max_eval_samples := cap; streaming := true |}.

(** Three utterances over exact rationals; the second one is the long one. *)
Definition q (n d : Z) : Qc := Q2Qc (Qmake n (Z.to_pos d)).

Definition utterances : list (sample Qc) :=
  [ {| s_audio := [q 1 2]; s_norm_text := "yes"; s_audio_length_s := q 3 1 |};
    {| s_audio := [q 0 1; q 1 4; q 1 8]; s_norm_text := "no"; s_audio_length_s := q 5 1 |};
    {| s_audio := [q 1 3; q 1 5]; s_norm_text := "no"; s_audio_length_s := q 4 1 |} ].

(** A clock that advances by half a second per reading. *)
Definition steady_clock (k : nat) : Qc := q (Z.of_nat k) 2.

(** The run used as an example below: a generative model, batches of two. *)
Definition demo_lib : Library Qc := toy_library true 2 utterances no_faults.
Definition demo_args : namespace := toy_args None 2.

Definition value_or {A} (d : A) (r : result A) : A :=
  match r with Ok a => a | Raise _ => d end.

Definition demo_results : all_results Qc :=
  value_or empty_results (fst (evaluate demo_lib demo_args (boot steady_clock))).

(** The same run with the GPU running out of memory in [model.generate]. *)
Definition out_of_memory : exn := LibraryError "CUDA out of memory".
Definition failing_lib : Library Qc :=
  toy_library true 2 utterances (fault_at "generate" out_of_memory).

(** A dataset that is empty after preparation. *)
Definition empty_lib : Library Qc := toy_library true 2 [] no_faults.

(** The keyword arguments of [generate] for a multilingual checkpoint. *)
Definition demo_gen : gen_kwargs :=
  {| max_new_tokens := 256; language := Some "en"; task := Some "transcribe" |}.

(** A clock that advances by a second per reading. *)
Definition slow_clock (k : nat) : Qc := q (Z.of_nat k) 1.

(** A binary64 run: a batch of eleven utterances, started at
    1700000208.0261078 and finished at 1700000222.7205458 seconds since the
    epoch. *)
Definition eleven : list (sample float) :=
  repeat {| s_audio := [0x1p-1%float]; s_norm_text := "yes";
            s_audio_length_s := 0x1p+2%float |} 11.

Definition measured_clock (k : nat) : float :=
  match k with
  | O => 0x1.954fc7401abc0p+30%float
  | S _ => 0x1.954fc77ae1d6cp+30%float
  end.

Definition float_lib : Library float := toy_library true 480000 eleven no_faults.

(** A library like [lib] whose WER metric is [wer]. *)
Definition with_wer_compute {F : Type} (lib : Library F)
    (wer : list string -> list string -> result F) : Library F :=
  {| config := config lib;
     model := model lib;
     processor := processor lib;
     features := features lib;
     token_ids := token_ids lib;
     raw_row := raw_row lib;
     AutoConfig_from_pretrained := AutoConfig_from_pretrained lib;
     in_speech_seq2seq_mapping := in_speech_seq2seq_mapping lib;
     from_pretrained := from_pretrained lib;
     model_to := model_to lib;
     AutoProcessor_from_pretrained := AutoProcessor_from_pretrained lib;
     model_input_names := model_input_names lib;
     can_generate := can_generate lib;
     is_multilingual := is_multilingual lib;
     load_data := load_data lib;
     prepare_data := prepare_data lib;
     n_samples := n_samples lib;
     processor_call := processor_call lib;
     features_to := features_to lib;
     features_cast := features_cast lib;
     generate := generate lib;
     forward_argmax := forward_argmax lib;
     batch_decode := batch_decode lib;
     normalizer := normalizer lib;
     write_manifest := write_manifest lib;
     abspath := abspath lib;
     wer_compute := wer |}.

(** An empty dataset and a WER metric that returns 0 on empty lists. *)
Definition lenient_empty_lib : Library Qc :=
  with_wer_compute empty_lib (fun _ _ => Ok (q 0 1)).

(** ** Libraries with a state of their own

    The calls of [benchmark] once more, for libraries whose answers may
    depend on a state they keep and change (a cache, a random generator, the
    memory of the device): every call takes the state [S] of the libraries
    and returns the state it leaves.  [benchmark] is the same code. *)

Module Stateful.

Record Library (F S : Type) : Type := {
  model : Type;
  processor : Type;
  features : Type;
  token_ids : Type;
  can_generate : model -> bool;
  n_samples : processor -> S -> result Z * S;
  processor_call :
    processor -> list (list F) -> processor_kwargs -> S -> result features * S;
  features_to : features -> Z -> S -> result features * S;
  features_cast : features -> string -> torch_dtype -> S -> result features * S;
  generate : model -> features -> gen_kwargs -> S -> result token_ids * S;
  forward_argmax : model -> features -> S -> result token_ids * S;
  batch_decode : processor -> token_ids -> S -> result (list string) * S;
  normalizer : string -> S -> result string * S
}.

(** The clock and the trace, with the state of the libraries. *)
Record lworld (F S : Type) : Type := {
  visible : world F;
  hidden : S
}.

Definition LM (F S A : Type) : Type := lworld F S -> result A * lworld F S.

Section Monad.
Context {F S : Type}.

Definition ret {A} (a : A) : LM F S A := fun w => (Ok a, w).

Definition bind {A B} (m : LM F S A) (k : A -> LM F S B) : LM F S B :=
  fun w =>
    match m w with
    | (Ok a, w') => k a w'
    | (Raise e, w') => (Raise e, w')
    end.

Definition raise {A} (e : exn) : LM F S A := fun w => (Raise e, w).

Definition lift {A} (r : result A) : LM F S A := fun w => (r, w).

(** A library call: it sees and changes the state of the libraries. *)
Definition call {A} (f : string) (oracle : S -> result A * S) : LM F S A :=
  fun w =>
    match oracle (hidden w) with
    | (Ok a, s) => (Ok a, {| visible := emit [Called f] (visible w); hidden := s |})
    | (Raise e, s) =>
        (Raise e, {| visible := emit [Called f; Raised e] (visible w); hidden := s |})
    end.

Definition time_time : LM F S F :=
  fun w => (fst (time_time (visible w)),
            {| visible := snd (time_time (visible w)); hidden := hidden w |}).

Fixpoint mapM {A B} (f : A -> LM F S B) (l : list A) : LM F S (list B) :=
  match l with
  | [] => ret []
  | x :: l' => bind (f x) (fun y => bind (mapM f l') (fun ys => ret (y :: ys)))
  end.
End Monad.

Notation "x <~ m ;; k" := (bind m (fun x => k))
  (at level 61, m at next level, right associativity).

Section Benchmark.
Context {F S : Type} {PF : PyFloat F} (lib : Library F S).

Definition use_longest (mdl : model lib) (proc : processor lib)
    (audios : list (list F)) : LM F S bool :=
  if negb (can_generate lib mdl) then ret true
  else
    first <~ match audios with
             | [] => raise IndexError
             | a :: _ => ret a
             end ;;
    n <~ call "processor.feature_extractor.n_samples" (n_samples lib proc) ;;
    ret (Z.of_nat (List.length first) >? n).

Definition preprocess (mdl : model lib) (proc : processor lib)
    (audios : list (list F)) : LM F S (features lib) :=
  longest <~ use_longest mdl proc audios ;;
  if longest : bool
  then call "processor" (processor_call lib proc audios kwargs_longest)
  else call "processor" (processor_call lib proc audios kwargs_standard).

Definition transcribe (args : namespace) (mdl : model lib) (proc : processor lib)
    (model_input_name : string) (gen : option gen_kwargs)
    (audios : list (list F)) : LM F S (list string) :=
  inputs <~ preprocess mdl proc audios ;;
  inputs <~ call "inputs.to" (features_to lib inputs (device args)) ;;
  inputs <~ call "inputs[model_input_name].to"
    (features_cast lib inputs model_input_name float16) ;;
  pred_ids <~
    (if can_generate lib mdl then
       kw <~ match gen with
             | Some kw => ret kw
             | None => raise NameError
             end ;;
       call "model.generate" (generate lib mdl inputs kw)
     else call "model" (forward_argmax lib mdl inputs)) ;;
  call "processor.batch_decode" (batch_decode lib proc pred_ids).

Definition normalize_all (texts : list string) : LM F S (list string) :=
  mapM (fun pred => call "data_utils.normalizer" (normalizer lib pred)) texts.

Definition benchmark (args : namespace) (mdl : model lib) (proc : processor lib)
    (model_input_name : string) (gen : option gen_kwargs)
    (b : batch F) : LM F S (mapped_batch F) :=
  let audios := b_audio b in
  let minibatch_size := Z.of_nat (List.length audios) in
  start_time <~ time_time ;;
  pred_text <~ transcribe args mdl proc model_input_name gen audios ;;
  end_time <~ time_time ;;
  let runtime := fsub end_time start_time in
  per_sample <~ lift (truediv runtime (of_int minibatch_size)) ;;
  let times := repeat per_sample (Z.to_nat minibatch_size) in
  preds <~ normalize_all pred_text ;;
  ret {| m_audio := b_audio b;
         m_norm_text := b_norm_text b;
         m_audio_length_s := b_audio_length_s b;
         m_transcription_time_s := times;
         m_predictions := preds;
         m_references := b_norm_text b |}.
End Benchmark.

(** [state_only m]: started with the libraries in the same state, [m] has
    the same result, adds the same events and leaves the libraries in the
    same state, whatever the clock and the trace; it does not read the
    clock. *)
Definition state_only {F S A} (m : LM F S A) : Prop :=
  forall w1 w2,
    hidden w1 = hidden w2 ->
    fst (m w1) = fst (m w2) /\
    hidden (snd (m w1)) = hidden (snd (m w2)) /\
    exists evs,
      visible (snd (m w1)) = emit evs (visible w1) /\
      visible (snd (m w2)) = emit evs (visible w2).

(** [mirrors m m']: [m'] does to the clock and the trace what [m] does, and
    leaves the state of the libraries alone. *)
Definition mirrors {F S A} (m : M F A) (m' : LM F S A) : Prop :=
  forall w s,
    m' {| visible := w; hidden := s |}
    = (fst (m w), {| visible := snd (m w); hidden := s |}).

(** A library that counts the calls made to it, and whose decoder gives up
    after [budget] calls. *)
Definition counting_library {F : Type} {PF : PyFloat F} (budget : nat)
  : Library F nat :=
  {| model := unit;
     processor := unit;
     features := list (list F);
     token_ids := list (list F);
     can_generate := fun _ => true;
     n_samples := fun _ s => (Ok 2, Datatypes.S s);
     processor_call := fun _ audios _ s => (Ok audios, Datatypes.S s);
     features_to := fun x _ s => (Ok x, Datatypes.S s);
     features_cast := fun x _ _ s => (Ok x, Datatypes.S s);
     generate := fun _ x _ s => (Ok x, Datatypes.S s);
     forward_argmax := fun _ x s => (Ok x, Datatypes.S s);
     batch_decode := fun _ ids s =>
       (if (budget <=? s)%nat then Raise (LibraryError "out of budget")
        else Ok (map heard ids), Datatypes.S s);
     normalizer := fun t s => (Ok t, Datatypes.S s) |}.

End Stateful.

(** A library without a state, as one with a state it never looks at. *)
Definition of_pure {F : Type} (S : Type) (lib : Library F) : Stateful.Library F S :=
  {| Stateful.model := model lib;
     Stateful.processor := processor lib;
     Stateful.features := features lib;
     Stateful.token_ids := token_ids lib;
     Stateful.can_generate := can_generate lib;
     Stateful.n_samples := fun p s => (n_samples lib p, s);
     Stateful.processor_call := fun p a k s => (processor_call lib p a k, s);
     Stateful.features_to := fun x d s => (features_to lib x d, s);
     Stateful.features_cast := fun x n t s => (features_cast lib x n t, s);
     Stateful.generate := fun m x k s => (generate lib m x k, s);
     Stateful.forward_argmax := fun m x s => (forward_argmax lib m x, s);
     Stateful.batch_decode := fun p t s => (batch_decode lib p t, s);
     Stateful.normalizer := fun t s => (normalizer lib t, s) |}.

(** * Vocabulary of the properties *)

(** ** What a computation adds to the trace

    [emits K m]: running [m] leaves the clock function alone and appends
    events of kind [K] to the trace; a [Raised e] among them is the last
    event, and [e] is then what [m] raises.

    [stateless m]: [m] has one result and appends one list of events, whatever
    the world it runs in.  Everything but [time_time] is of this kind. *)

Section TraceVocabulary.
Context {F : Type}.

Definition silent (evs : list (event F)) : Prop :=
  forall e, ~ In (Raised e) evs.

Definition faithful {A} (evs : list (event F)) (r : result A) : Prop :=
  match r with
  | Ok _ => silent evs
  | Raise e' =>
      forall e, In (Raised e) evs ->
                e = e' /\ exists pre, evs = pre ++ [Raised e] /\ silent pre
  end.

Definition emits (K : event F -> Prop) {A} (m : M F A) : Prop :=
  forall w, exists evs,
    wall (snd (m w)) = wall w /\
    trace (snd (m w)) = trace w ++ evs /\
    Forall K evs /\
    faithful evs (fst (m w)).

Definition stateless {A} (m : M F A) : Prop :=
  exists r evs, forall w, m w = (r, emit evs w).

(** The events of the report that the properties count. *)
Definition wer_calls (evs : list (event F)) : list (list string * list string) :=
  flat_map (fun ev => match ev with CalledWer r p => [(r, p)] | _ => [] end) evs.

Definition summaries (evs : list (event F)) : list (F * F) :=
  flat_map (fun ev => match ev with
                      | Printed (Summary wer rtfx) => [(wer, rtfx)]
                      | _ => []
                      end) evs.

Definition manifest_calls (evs : list (event F)) : nat :=
  List.length (filter (fun ev => match ev with
                                 | CalledWriteManifest _ _ _ _ _ _ _ _ => true
                                 | _ => false
                                 end) evs).

(** The events of the evaluation phase: library calls, what they raise,
    and the subsampling notice. *)
Definition quiet (ev : event F) : Prop :=
  match ev with
  | Called _ | Raised _ | Printed (Subsampling _) => True
  | _ => False
  end.

(** The rows [subsample] keeps. *)
Definition selected_rows {A} (args : namespace) (ds : list A) : list A :=
  match max_eval_samples args with
  | Some n => if n >? 0 then take n ds else ds
  | None => ds
  end.
End TraceVocabulary.

Section DriverVocabulary.
Context {F : Type} {PF : PyFloat F} (lib : Library F).

(** What [benchmark] measures in the world [w]: the next two readings of
    the clock. *)
Definition runtime_at (w : world F) : F :=
  fsub (wall w (S (ticks w))) (wall w (ticks w)).

Definition normalize_all (texts : list string) : M F (list string) :=
  mapM (fun pred => call "data_utils.normalizer" (normalizer lib pred)) texts.

(** How a batch of samples and the batch [benchmark] returned for it are
    related. *)
Definition batch_outcome args mdl proc name gen
    (rs : list (sample F)) (mb : mapped_batch F) : Prop :=
  (exists wb, fst (benchmark lib args mdl proc name gen (to_batch rs) wb) = Ok mb) /\
  List.length (m_predictions mb) = List.length rs /\
  List.length (m_transcription_time_s mb) = List.length rs.

(** What [report] returns and the events it adds, by cases on the three
    steps that can raise. *)
Definition report_outcome (args : namespace) (res : all_results F)
  : result unit * list (event F) :=
  let written :=
    CalledWriteManifest (references res) (predictions res)
      (model_id args) (dataset_path args) (dataset args) (split args)
      (audio_length_s res) (transcription_time_s res) in
  let scored := CalledWer (references res) (predictions res) in
  match write_manifest lib (references res) (predictions res)
          (model_id args) (dataset_path args) (dataset args) (split args)
          (audio_length_s res) (transcription_time_s res) with
  | Raise e => (Raise e, [written; Raised e])
  | Ok path =>
      let saved := Printed (ResultsSaved (abspath lib path)) in
      match wer_compute lib (references res) (predictions res) with
      | Raise e => (Raise e, [written; saved; scored; Raised e])
      | Ok wer =>
          match rtfx_of (audio_length_s res) (transcription_time_s res) with
          | Raise e => (Raise e, [written; saved; scored])
          | Ok rtfx =>
              (Ok tt, [written; saved; scored;
                       Printed (Summary (round2 (fmul (of_int 100) wer)) rtfx)])
          end
      end
  end.
End DriverVocabulary.

Section TimingVocabulary.
Context {F : Type} {PF : PyFloat F}.

(** The timing column of a whole run, read off the clock: batch after batch,
    the difference of two consecutive readings, divided by the size of the
    batch, once per sample.  [t] is the number of readings taken before. *)
Fixpoint expected_times {A} (clock : nat -> F) (t : nat) (batches : list (list A))
  : list F :=
  match batches with
  | [] => []
  | b :: rest =>
      repeat (fquot (fsub (clock (S t)) (clock t)) (of_int (Z.of_nat (List.length b))))
             (List.length b)
      ++ expected_times clock (S (S t)) rest
  end.

(** The runtimes of [k] consecutive batches. *)
Fixpoint batch_runtimes (clock : nat -> F) (t k : nat) : list F :=
  match k with
  | O => []
  | S k' => fsub (clock (S t)) (clock t) :: batch_runtimes clock (S (S t)) k'
  end.

(** [blames P m]: when [m] raises, the exception satisfies [P] or was raised
    by a library call, the last event of the trace. *)
Definition blames (P : exn -> Prop) {A} (m : M F A) : Prop :=
  forall w,
    match fst (m w) with
    | Ok _ => True
    | Raise e => P e \/ exists pre, trace (snd (m w)) = pre ++ [Raised e]
    end.

(** The exceptions of the script's own statements. *)
Definition own_exception (e : exn) : Prop :=
  e = IndexError \/ e = ZeroDivisionError.
End TimingVocabulary.

Section ClockVocabulary.
Context {F : Type}.

Definition result_map {A B} (g : A -> B) (r : result A) : result B :=
  match r with Ok a => Ok (g a) | Raise e => Raise e end.

(** A row, and the accumulated results, without the transcription time. *)
Definition untimed (rows : list (result_row F)) : list (string * F * string * string) :=
  map (fun r => (r_norm_text r, r_audio_length_s r, r_predictions r, r_references r))
      rows.

Definition untimed_results (res : all_results F) : list F * list string * list string :=
  (audio_length_s res, predictions res, references res).

(** [clock_free g m]: what [m] returns, seen through [g], and what it raises
    are the same in every world. *)
Definition clock_free {A B} (g : A -> B) (m : M F A) : Prop :=
  exists c : result B, forall w, result_map g (fst (m w)) = c.
End ClockVocabulary.

(** * Supporting lemmas *)

(** ** Running computations *)

Section MonadFacts.
Context {F : Type}.

Lemma bind_inv {A B} (m : M F A) (k : A -> M F B) w b :
  fst (bind m k w) = Ok b ->
  exists a, fst (m w) = Ok a /\ fst (k a (snd (m w))) = Ok b.
Proof.
  unfold bind. destruct (m w) as [[a | e] w']; simpl; intros E.
  - now exists a.
  - discriminate.
Qed.

Lemma observe_inv {A} (ev : event F) (r : result A) w a :
  fst (observe ev r w) = Ok a -> r = Ok a.
Proof. unfold observe. destruct r; simpl; congruence. Qed.

End MonadFacts.

Ltac parts := split; [ | split; [ | split ] ].
Ltac parts5 := split; [ | split; [ | split; [ | split ] ] ].

(** ** What a computation adds to the trace *)

Section Emits.
Context {F : Type}.

Variable K : event F -> Prop.
Hypothesis K_raised : forall e, K (Raised e).

Lemma silent_nil : @silent F [].
Proof. intros e []. Qed.

Lemma faithful_nil {A} (r : result A) : faithful (@nil (event F)) r.
Proof. destruct r; simpl; [apply silent_nil | intros e0 []]. Qed.

Lemma emits_pure {A} (m : M F A) :
  (forall w, snd (m w) = w) -> emits K m.
Proof.
  intros E w. exists []. rewrite E, app_nil_r.
  parts; auto using faithful_nil.
Qed.

Lemma emits_ret {A} (a : A) : emits K (ret a).
Proof. now apply emits_pure. Qed.

Lemma emits_raise {A} e : emits K (@raise F A e).
Proof. now apply emits_pure. Qed.

Lemma emits_lift {A} (r : result A) : emits K (lift r).
Proof. now apply emits_pure. Qed.

Lemma emits_time : emits K time_time.
Proof.
  intros w. exists []. simpl. rewrite app_nil_r.
  parts; auto using silent_nil.
Qed.

Lemma emits_print l : K (Printed l) -> emits K (print l).
Proof.
  intros Hl w. exists [Printed l]. simpl. parts; auto.
  intros e [E | []]. discriminate.
Qed.

Lemma emits_observe {A} ev (r : result A) :
  K ev -> (forall e, ev <> Raised e) -> emits K (observe ev r).
Proof.
  intros Hev Hne w. unfold observe. destruct r as [a | e'].
  - exists [ev]. simpl. parts; auto.
    intros e [E | []]. now apply (Hne e).
  - exists [ev; Raised e']. simpl. parts; auto.
    intros e [E | [E | []]].
    + now apply Hne in E.
    + inversion E. subst. split; auto. exists [ev]. split; auto.
      intros e2 [E2 | []]. now apply (Hne e2).
Qed.

Lemma emits_call {A} f (r : result A) : K (Called f) -> emits K (call f r).
Proof. intros Hf. apply emits_observe; auto. discriminate. Qed.

Lemma emits_bind {A B} (m : M F A) (k : A -> M F B) :
  emits K m -> (forall a, emits K (k a)) -> emits K (bind m k).
Proof.
  intros Hm Hk w. destruct (Hm w) as (evs1 & W1 & T1 & K1 & F1).
  unfold bind. destruct (m w) as [[a | e] w1]; simpl in *.
  - destruct (Hk a w1) as (evs2 & W2 & T2 & K2 & F2).
    exists (evs1 ++ evs2). rewrite W2, T2, W1, T1, app_assoc.
    parts; auto.
    + apply Forall_app. now split.
    + destruct (fst (k a w1)) as [b | e]; simpl in *.
      * intros e Hin. apply in_app_or in Hin. destruct Hin as [Hin | Hin].
        -- now apply (F1 e). -- now apply (F2 e).
      * intros e0 Hin. apply in_app_or in Hin. destruct Hin as [Hin | Hin].
        -- now apply F1 in Hin.
        -- destruct (F2 e0 Hin) as (-> & pre & -> & Hpre). split; auto.
           exists (evs1 ++ pre). rewrite app_assoc. split; auto.
           intros e2 Hin2. apply in_app_or in Hin2. destruct Hin2 as [H2 | H2].
           ++ now apply (F1 e2). ++ now apply (Hpre e2).
  - exists evs1. now parts.
Qed.

Lemma emits_mapM {A B} (f : A -> M F B) l :
  (forall x, emits K (f x)) -> emits K (mapM f l).
Proof.
  intros Hf. induction l as [| x l IH]; simpl.
  - apply emits_ret.
  - apply emits_bind; auto. intros y. apply emits_bind; auto.
    intros ys. apply emits_ret.
Qed.
End Emits.

(** ** Computations that do not look at the world *)

Section Stateless.
Context {F : Type}.

Lemma emit_nil (w : world F) : emit [] w = w.
Proof. destruct w. unfold emit. simpl. now rewrite app_nil_r. Qed.

Lemma emit_emit evs1 evs2 (w : world F) :
  emit evs2 (emit evs1 w) = emit (evs1 ++ evs2) w.
Proof. unfold emit. simpl. now rewrite app_assoc. Qed.

Lemma stateless_lift {A} (r : result A) : stateless (@lift F A r).
Proof. exists r, []. intros w. now rewrite emit_nil. Qed.

Lemma stateless_ret {A} (a : A) : stateless (@ret F A a).
Proof. apply (stateless_lift (Ok a)). Qed.

Lemma stateless_raise {A} e : stateless (@raise F A e).
Proof. apply (stateless_lift (Raise e)). Qed.

Lemma stateless_observe {A} ev (r : result A) : stateless (@observe F A ev r).
Proof.
  destruct r as [a | e].
  - now exists (Ok a), [ev].
  - now exists (Raise e), [ev; Raised e].
Qed.

Lemma stateless_call {A} f (r : result A) : stateless (@call F A f r).
Proof. apply stateless_observe. Qed.

Lemma stateless_print l : stateless (@print F l).
Proof. now exists (Ok tt), [Printed l]. Qed.

Lemma stateless_bind {A B} (m : M F A) (k : A -> M F B) :
  stateless m -> (forall a, stateless (k a)) -> stateless (bind m k).
Proof.
  intros (r & evs & Hm) Hk. destruct r as [a | e].
  - destruct (Hk a) as (r' & evs' & Hka). exists r', (evs ++ evs').
    intros w. unfold bind. now rewrite Hm, Hka, emit_emit.
  - exists (Raise e), evs. intros w. unfold bind. now rewrite Hm.
Qed.

Lemma stateless_mapM {A B} (f : A -> M F B) l :
  (forall x, stateless (f x)) -> stateless (mapM f l).
Proof.
  intros Hf. induction l as [| x l IH]; simpl.
  - apply stateless_ret.
  - apply stateless_bind; auto. intros y. apply stateless_bind; auto.
    intros ys. apply stateless_ret.
Qed.

Lemma stateless_result {A} (m : M F A) w1 w2 :
  stateless m -> fst (m w1) = fst (m w2).
Proof. intros (r & evs & Hm). now rewrite !Hm. Qed.
End Stateless.

Create HintDb stateless.
#[local] Hint Resolve stateless_ret stateless_raise stateless_lift stateless_call
  stateless_observe stateless_print : stateless.

(** ** [benchmark] *)

Section BenchmarkFacts.
Context {F : Type} {PF : PyFloat F} (lib : Library F).
Variables (args : namespace) (mdl : model lib) (proc : processor lib)
          (model_input_name : string) (gen : option gen_kwargs).

Lemma use_longest_stateless audios : stateless (use_longest lib mdl proc audios).
Proof.
  unfold use_longest. destruct (can_generate lib mdl); simpl; auto with stateless.
  apply stateless_bind.
  - destruct audios; auto with stateless.
  - intros a. apply stateless_bind; auto with stateless.
Qed.

Lemma preprocess_stateless audios : stateless (preprocess lib mdl proc audios).
Proof.
  unfold preprocess. apply stateless_bind.
  - apply use_longest_stateless.
  - intros []; auto with stateless.
Qed.

Lemma transcribe_stateless audios :
  stateless (transcribe lib args mdl proc model_input_name gen audios).
Proof.
  unfold transcribe.
  apply stateless_bind; [apply preprocess_stateless | intros x1].
  apply stateless_bind; [auto with stateless | intros x2].
  apply stateless_bind; [auto with stateless | intros x3].
  apply stateless_bind; [| auto with stateless].
  destruct (can_generate lib mdl); auto with stateless.
  apply stateless_bind; [| auto with stateless].
  destruct gen; auto with stateless.
Qed.

Lemma normalize_all_stateless texts : stateless (normalize_all lib texts).
Proof. apply stateless_mapM. auto with stateless. Qed.

(** The result of [benchmark] on a batch: the transcription does not depend
    on the world, the timing column is the measured runtime divided by the
    batch size, once per sample. *)
Lemma benchmark_result (b : batch F) :
  exists r : result (list string), forall w,
    fst (benchmark lib args mdl proc model_input_name gen b w) =
    match r with
    | Raise e => Raise e
    | Ok texts =>
        match truediv (runtime_at w) (of_int (Z.of_nat (List.length (b_audio b)))) with
        | Raise e => Raise e
        | Ok per =>
            match fst (normalize_all lib texts w) with
            | Raise e => Raise e
            | Ok preds =>
                Ok {| m_audio := b_audio b;
                      m_norm_text := b_norm_text b;
                      m_audio_length_s := b_audio_length_s b;
                      m_transcription_time_s := repeat per (List.length (b_audio b));
                      m_predictions := preds;
                      m_references := b_norm_text b |}
            end
        end
    end.
Proof.
  destruct (transcribe_stateless (b_audio b)) as (r & evs & Ht).
  exists r. intros w. unfold benchmark, runtime_at.
  unfold bind at 1. simpl. unfold bind at 1. rewrite Ht.
  destruct r as [texts | e]; [| reflexivity].
  unfold bind at 1. simpl. unfold bind at 1. unfold lift at 1.
  destruct (truediv _ _) as [per | e]; [| reflexivity].
  destruct (normalize_all_stateless texts) as (rn & evsn & Hn).
  fold (normalize_all lib texts). unfold bind at 1. rewrite !Hn. simpl.
  destruct rn as [preds | e]; simpl; [| reflexivity].
  now rewrite Nat2Z.id.
Qed.
End BenchmarkFacts.

(** ** Batches, rows and columns *)

Section DatasetFacts.
Context {A : Type}.

Lemma chunks_concat n : forall (rows cur : list A) room,
  concat (chunks n room cur rows) = rev cur ++ rows.
Proof.
  induction rows as [| x rows IH]; intros cur room; simpl.
  - destruct cur; simpl; now rewrite ?app_nil_r.
  - destruct room as [| [| r]]; simpl; rewrite IH; simpl;
      now rewrite <- ?app_assoc.
Qed.

Lemma chunks_nonempty n : forall (rows cur : list A) room,
  Forall (fun b => b <> []) (chunks n room cur rows).
Proof.
  assert (Hrev : forall (x : A) cur, rev cur ++ [x] <> []).
  { intros x cur E. now apply app_eq_nil in E as [_ E]. }
  induction rows as [| x rows IH]; intros cur room; simpl.
  - destruct cur; simpl; constructor; auto.
  - destruct room as [| [| r]]; auto; constructor; auto.
Qed.

Lemma iter_batches_concat bs (rows : list A) :
  concat (iter_batches bs rows) = rows.
Proof.
  unfold iter_batches. destruct (bs <=? 0).
  - destruct rows; simpl; now rewrite ?app_nil_r.
  - apply chunks_concat.
Qed.

Lemma iter_batches_nonempty bs (rows : list A) :
  Forall (fun b => b <> []) (iter_batches bs rows).
Proof.
  unfold iter_batches. destruct (bs <=? 0).
  - destruct rows; constructor; auto. discriminate.
  - apply chunks_nonempty.
Qed.

Lemma iter_batches_nil bs : iter_batches bs (@nil A) = [].
Proof. unfold iter_batches. now destruct (bs <=? 0). Qed.
End DatasetFacts.

Section ColumnFacts.
Context {F : Type}.

Lemma zip_rows_columns : forall (nt : list string) (al tt : list F) (pr rf : list string),
  List.length al = List.length nt -> List.length tt = List.length nt ->
  List.length pr = List.length nt -> List.length rf = List.length nt ->
  let rows := zip_rows nt al tt pr rf in
  map (@r_audio_length_s F) rows = al /\
  map (@r_transcription_time_s F) rows = tt /\
  map (@r_predictions F) rows = pr /\
  map (@r_references F) rows = rf.
Proof.
  induction nt as [| a nt IH]; intros [| b al] [| c tt] [| d pr] [| e rf];
    simpl; try discriminate; auto.
  intros H1 H2 H3 H4. injection H1 as H1. injection H2 as H2.
  injection H3 as H3. injection H4 as H4.
  destruct (IH al tt pr rf H1 H2 H3 H4) as (E1 & E2 & E3 & E4).
  now rewrite E1, E2, E3, E4.
Qed.

Lemma to_examples_inv (mb : mapped_batch F) rows :
  to_examples mb = Ok rows ->
  List.length (m_audio_length_s mb) = List.length (m_norm_text mb) /\
  List.length (m_transcription_time_s mb) = List.length (m_norm_text mb) /\
  List.length (m_predictions mb) = List.length (m_norm_text mb) /\
  map (@r_audio_length_s F) rows = m_audio_length_s mb /\
  map (@r_transcription_time_s F) rows = m_transcription_time_s mb /\
  map (@r_predictions F) rows = m_predictions mb /\
  map (@r_references F) rows = m_references mb.
Proof.
  unfold to_examples.
  destruct (_ && _) eqn:E; [| discriminate]. intros R. inversion R. clear R.
  apply andb_prop in E. destruct E as [E E4].
  apply andb_prop in E. destruct E as [E E3].
  apply andb_prop in E. destruct E as [E1 E2].
  apply Nat.eqb_eq in E1, E2, E3, E4.
  destruct (zip_rows_columns _ _ _ _ _ E1 E2 E3 E4) as (C1 & C2 & C3 & C4).
  auto 10.
Qed.

Lemma fold_append_row (rows : list (result_row F)) : forall acc,
  fold_left append_row rows acc =
  {| audio_length_s := audio_length_s acc ++ map (@r_audio_length_s F) rows;
     transcription_time_s :=
       transcription_time_s acc ++ map (@r_transcription_time_s F) rows;
     predictions := predictions acc ++ map (@r_predictions F) rows;
     references := references acc ++ map (@r_references F) rows |}.
Proof.
  induction rows as [| r rows IH]; intros acc; simpl.
  - destruct acc; simpl. now rewrite !app_nil_r.
  - rewrite IH. simpl. now rewrite <- !app_assoc.
Qed.

(** The loop of lines 97-99 leaves in each list the column of the rows. *)
Lemma collect_columns (rows : list (result_row F)) :
  collect rows =
  {| audio_length_s := map (@r_audio_length_s F) rows;
     transcription_time_s := map (@r_transcription_time_s F) rows;
     predictions := map (@r_predictions F) rows;
     references := map (@r_references F) rows |}.
Proof. unfold collect. now rewrite fold_append_row. Qed.

Lemma mapM_inv {X Y} (f : X -> M F Y) : forall l w ys,
  fst (mapM f l w) = Ok ys ->
  Forall2 (fun x y => exists w', fst (f x w') = Ok y) l ys.
Proof.
  induction l as [| x l IH]; simpl; intros w ys E.
  - inversion E. constructor.
  - apply bind_inv in E. destruct E as (y & Ey & E).
    apply bind_inv in E. destruct E as (ys' & Eys & E).
    inversion E. subst ys. constructor; eauto.
Qed.
End ColumnFacts.

(** ** The driver, phase by phase *)

Section DriverFacts.
Context {F : Type} {PF : PyFloat F} (lib : Library F).

(** The columns of a batch that [benchmark] returned. *)
Lemma benchmark_columns args mdl proc name gen (b : batch F) w mb :
  fst (benchmark lib args mdl proc name gen b w) = Ok mb ->
  m_norm_text mb = b_norm_text b /\
  m_audio_length_s mb = b_audio_length_s b /\
  m_references mb = b_norm_text b /\
  exists per,
    truediv (runtime_at w) (of_int (Z.of_nat (List.length (b_audio b)))) = Ok per /\
    m_transcription_time_s mb = repeat per (List.length (b_audio b)).
Proof.
  destruct (benchmark_result lib args mdl proc name gen b) as (r & Hr).
  rewrite Hr. destruct r as [texts | e]; [| discriminate].
  destruct (truediv _ _) as [per | e]; [| discriminate].
  destruct (fst (normalize_all lib texts w)) as [preds | e]; [| discriminate].
  intros E. inversion E. simpl. eauto 6.
Qed.

Lemma quiet_raised e : @quiet F (Raised e).
Proof. exact I. Qed.

Ltac emits_step :=
  first
    [ apply emits_bind; [| intros ?]
    | apply emits_call; [exact quiet_raised | exact I]
    | apply emits_ret | apply emits_raise | apply emits_lift | apply emits_time
    | apply emits_print; exact I
    | apply emits_mapM; intros ?
    | match goal with
      | |- emits _ (match ?x with _ => _ end) => destruct x
      end ].

Lemma benchmark_emits args mdl proc name gen b :
  emits quiet (benchmark lib args mdl proc name gen b).
Proof.
  unfold benchmark, transcribe, preprocess, use_longest. repeat emits_step.
Qed.

Lemma evaluate_emits args : emits quiet (evaluate lib args).
Proof.
  unfold evaluate, make_gen_kwargs, subsample, map_batched.
  repeat first [apply benchmark_emits | emits_step].
Qed.

Lemma subsample_result args ds w :
  fst (subsample lib args ds w) = Ok (selected_rows args ds).
Proof.
  unfold subsample, selected_rows. destruct (max_eval_samples args) as [n |]; auto.
  now destruct (n >? 0).
Qed.

Lemma evaluate_inv args w res :
  fst (evaluate lib args w) = Ok res ->
  exists mdl proc name gen raw ds rows w',
    load_data lib args = Ok raw /\
    prepare_data lib (selected_rows args raw) = Ok ds /\
    fst (map_batched (benchmark lib args mdl proc name gen)
           (batch_size args) ds w') = Ok rows /\
    res = collect rows.
Proof.
  unfold evaluate. intros E.
  apply bind_inv in E. destruct E as (cfg & _ & E).
  apply bind_inv in E. destruct E as (mdl0 & _ & E).
  apply bind_inv in E. destruct E as (mdl & _ & E).
  apply bind_inv in E. destruct E as (proc & _ & E).
  apply bind_inv in E. destruct E as (name & _ & E).
  apply bind_inv in E. destruct E as (gen & _ & E).
  apply bind_inv in E. destruct E as (raw & Eraw & E).
  apply observe_inv in Eraw.
  apply bind_inv in E. destruct E as (sel & Esel & E).
  rewrite subsample_result in Esel. inversion Esel. subst sel.
  apply bind_inv in E. destruct E as (ds & Eds & E).
  apply observe_inv in Eds.
  apply bind_inv in E. destruct E as (rows & Erows & E).
  inversion E.
  exists mdl, proc, name, gen, raw, ds, rows. eauto.
Qed.

Lemma per_batch_rows args mdl proc name gen batches per_batch :
  Forall2 (fun rs rows => exists w',
             fst ((mb <- benchmark lib args mdl proc name gen (to_batch rs) ;;
                   call "dataset.map" (to_examples mb)) w') = Ok rows)
          batches per_batch ->
  exists outs,
    Forall2 (batch_outcome lib args mdl proc name gen) batches outs /\
    map (@r_references F) (concat per_batch) = map (@s_norm_text F) (concat batches) /\
    map (@r_audio_length_s F) (concat per_batch)
      = map (@s_audio_length_s F) (concat batches) /\
    map (@r_predictions F) (concat per_batch) = concat (map (@m_predictions F) outs) /\
    map (@r_transcription_time_s F) (concat per_batch)
      = concat (map (@m_transcription_time_s F) outs).
Proof.
  induction 1 as [| rs rows batches per_batch (w' & E) _ (outs & IH & I1 & I2 & I3 & I4)].
  - exists []. simpl. auto.
  - apply bind_inv in E. destruct E as (mb & Emb & E). apply observe_inv in E.
    pose proof Emb as Ecol.
    apply benchmark_columns in Ecol as (C1 & C2 & C3 & _).
    apply to_examples_inv in E as (L1 & L2 & L3 & M1 & M2 & M3 & M4).
    simpl in C1, C2, C3.
    assert (Ln : List.length (m_norm_text mb) = List.length rs)
      by (rewrite C1; apply length_map).
    exists (mb :: outs). simpl. rewrite !map_app, I1, I2, I3, I4, M1, M2, M3, M4, C2, C3.
    parts; auto. constructor; auto. unfold batch_outcome. rewrite L2, L3. eauto.
Qed.

Lemma map_batched_rows args mdl proc name gen bs ds w rows :
  fst (map_batched (benchmark lib args mdl proc name gen) bs ds w) = Ok rows ->
  exists outs,
    Forall2 (batch_outcome lib args mdl proc name gen) (iter_batches bs ds) outs /\
    map (@r_references F) rows = map (@s_norm_text F) ds /\
    map (@r_audio_length_s F) rows = map (@s_audio_length_s F) ds /\
    map (@r_predictions F) rows = concat (map (@m_predictions F) outs) /\
    map (@r_transcription_time_s F) rows
      = concat (map (@m_transcription_time_s F) outs).
Proof.
  unfold map_batched. intros E.
  apply bind_inv in E. destruct E as (per_batch & Ep & E). inversion E.
  apply mapM_inv in Ep. apply per_batch_rows in Ep.
  now rewrite iter_batches_concat in Ep.
Qed.
End DriverFacts.

(** ** [main]: the report after the evaluation *)

Section MainFacts.
Context {F : Type} {PF : PyFloat F} (lib : Library F).

Lemma quiet_no_report (evs : list (event F)) :
  Forall quiet evs ->
  wer_calls evs = [] /\ summaries evs = [] /\ manifest_calls evs = 0%nat.
Proof.
  unfold manifest_calls.
  induction 1 as [| ev evs Hev _ (I1 & I2 & I3)]; simpl; auto.
  destruct ev as [[] | | | |]; simpl in *; try contradiction; auto.
Qed.

Lemma report_run args res w :
  report lib args res w =
  (fst (report_outcome lib args res), emit (snd (report_outcome lib args res)) w).
Proof.
  unfold report, report_outcome, bind, observe, print, lift.
  destruct (write_manifest _ _ _ _ _ _ _ _ _) as [path | e]; simpl; auto.
  destruct (wer_compute _ _ _) as [wer | e]; simpl.
  - destruct (rtfx_of _ _) as [rtfx | e]; simpl; now rewrite !emit_emit.
  - now rewrite !emit_emit.
Qed.

(** A run of [main]: the events of the evaluation, then those of the
    report when the evaluation returned. *)
Lemma main_run args w :
  exists evs,
    Forall quiet evs /\
    faithful evs (fst (evaluate lib args w)) /\
    match fst (evaluate lib args w) with
    | Raise e =>
        fst (main lib args w) = Raise e /\
        trace (snd (main lib args w)) = trace w ++ evs
    | Ok res =>
        fst (main lib args w) = fst (report_outcome lib args res) /\
        trace (snd (main lib args w))
          = trace w ++ evs ++ snd (report_outcome lib args res)
    end.
Proof.
  destruct (evaluate_emits lib args w) as (evs & _ & T & K & Fa).
  exists evs. split; [assumption | split; [assumption |]].
  unfold main, bind. destruct (evaluate lib args w) as [[res | e] w1]; simpl in *.
  - rewrite report_run. simpl. now rewrite T, app_assoc.
  - auto.
Qed.
End MainFacts.

(** * Properties of the script *)

Section MainClaims.
Context {F : Type} {PF : PyFloat F} (lib : Library F).

Lemma wer_calls_app (evs1 evs2 : list (event F)) :
  wer_calls (evs1 ++ evs2) = wer_calls evs1 ++ wer_calls evs2.
Proof. apply flat_map_app. Qed.

Lemma summaries_app (evs1 evs2 : list (event F)) :
  summaries (evs1 ++ evs2) = summaries evs1 ++ summaries evs2.
Proof. apply flat_map_app. Qed.

Lemma manifest_calls_app (evs1 evs2 : list (event F)) :
  manifest_calls (evs1 ++ evs2) = (manifest_calls evs1 + manifest_calls evs2)%nat.
Proof. unfold manifest_calls. now rewrite filter_app, length_app. Qed.

Lemma rtfx_of_inv (audio times : list F) r :
  rtfx_of audio times = Ok r ->
  exists quotient,
    truediv (py_sum audio) (py_sum times) = Ok quotient /\ r = round2 quotient.
Proof.
  unfold rtfx_of. destruct (truediv _ _) as [x | e]; [| discriminate].
  intros E. inversion E. eauto.
Qed.

(** C1: when [main] returns, WER was computed exactly once, over the full
    lists of references and predictions that the evaluation collected, and
    the one summary line shows [round(100 * wer, 2)] and the sum of all audio
    durations divided by the sum of all transcription times, rounded to two
    decimals. *)
Theorem metrics_once_over_whole_run args w :
  fst (main lib args w) = Ok tt ->
  exists res wer quotient evs,
    fst (evaluate lib args w) = Ok res /\
    trace (snd (main lib args w)) = trace w ++ evs /\
    wer_compute lib (references res) (predictions res) = Ok wer /\
    wer_calls evs = [(references res, predictions res)] /\
    truediv (py_sum (audio_length_s res)) (py_sum (transcription_time_s res))
      = Ok quotient /\
    summaries evs = [(round2 (fmul (of_int 100) wer), round2 quotient)].
Proof.
  intros Hmain. destruct (main_run lib args w) as (evs & Hq & _ & Hrun).
  destruct (fst (evaluate lib args w)) as [res | e].
  2: { destruct Hrun as [E _]. congruence. }
  destruct Hrun as [E T]. rewrite Hmain in E.
  apply quiet_no_report in Hq. destruct Hq as (Q1 & Q2 & _).
  revert E T. unfold report_outcome.
  destruct (write_manifest _ _ _ _ _ _ _ _ _) as [path | e]; [| discriminate].
  destruct (wer_compute _ _ _) as [wer | e] eqn:W; [| discriminate].
  destruct (rtfx_of _ _) as [rtfx | e] eqn:R; [| discriminate].
  apply rtfx_of_inv in R. destruct R as (quotient & D & ->).
  simpl. intros _ T.
  exists res, wer, quotient. eexists. split; [reflexivity |].
  split; [exact T |]. split; [exact W |].
  rewrite wer_calls_app, summaries_app, Q1, Q2. simpl. auto.
Qed.

(** C2: when the evaluation returns, the four lists have the length of the
    prepared dataset; references and audio durations are those of its
    samples, in order; predictions and transcription times are the columns
    [benchmark] returned for the consecutive batches, each with one entry per
    sample of its batch. *)
Theorem results_aligned args w res :
  fst (evaluate lib args w) = Ok res ->
  exists raw ds mdl proc name gen outs,
    load_data lib args = Ok raw /\
    prepare_data lib (selected_rows args raw) = Ok ds /\
    List.length (audio_length_s res) = List.length ds /\
    List.length (transcription_time_s res) = List.length ds /\
    List.length (predictions res) = List.length ds /\
    List.length (references res) = List.length ds /\
    references res = map (@s_norm_text F) ds /\
    audio_length_s res = map (@s_audio_length_s F) ds /\
    Forall2 (batch_outcome lib args mdl proc name gen)
            (iter_batches (batch_size args) ds) outs /\
    predictions res = concat (map (@m_predictions F) outs) /\
    transcription_time_s res = concat (map (@m_transcription_time_s F) outs).
Proof.
  intros E. apply evaluate_inv in E.
  destruct E as (mdl & proc & name & gen & raw & ds & rows & w' & L & P & R & ->).
  apply map_batched_rows in R. destruct R as (outs & B & R1 & R2 & R3 & R4).
  exists raw, ds, mdl, proc, name, gen, outs.
  rewrite collect_columns. simpl.
  assert (Len : List.length rows = List.length ds).
  { apply (f_equal (@List.length string)) in R1. now rewrite !length_map in R1. }
  rewrite !length_map, <- R1, <- R2, <- R3, <- R4. auto 12.
Qed.

(** C5 (amended): the dataset that is prepared and evaluated is the first
    [max_eval_samples] rows of the loaded one when a cap greater than zero
    is given, and the whole loaded dataset when no cap is given or the cap
    is zero or negative. *)
Theorem sample_cap args w res :
  fst (evaluate lib args w) = Ok res ->
  exists raw ds,
    load_data lib args = Ok raw /\
    prepare_data lib
      (match max_eval_samples args with
       | Some n => if n >? 0 then firstn (Z.to_nat n) raw else raw
       | None => raw
       end) = Ok ds /\
    references res = map (@s_norm_text F) ds /\
    audio_length_s res = map (@s_audio_length_s F) ds.
Proof.
  intros E. apply evaluate_inv in E.
  destruct E as (mdl & proc & name & gen & raw & ds & rows & w' & L & P & R & ->).
  apply map_batched_rows in R. destruct R as (outs & _ & R1 & R2 & _).
  exists raw, ds. rewrite collect_columns. simpl. auto.
Qed.

(** C7: an exception that a library call raises is what [main] raises; it
    is the last thing that happens, no summary line is printed, the exit
    status is not zero, and when it is raised before the report starts
    [write_manifest] is never called. *)
Theorem library_exception_propagates args w e evs :
  trace (snd (main lib args w)) = trace w ++ evs ->
  In (Raised e) evs ->
  fst (main lib args w) = Raise e /\
  (exists pre, evs = pre ++ [Raised e]) /\
  summaries evs = [] /\
  ((forall c, e <> SystemExit c) -> exit_status (fst (main lib args w)) <> 0) /\
  ((forall res, fst (evaluate lib args w) <> Ok res) -> manifest_calls evs = 0%nat).
Proof.
  intros T Hin. destruct (main_run lib args w) as (evs0 & Hq & Hf & Hrun).
  pose proof (quiet_no_report Hq) as (_ & Q2 & Q3).
  assert (Hexit : forall e', (forall c, e' <> SystemExit c) ->
                             exit_status (@Raise unit e') <> 0).
  { intros e' Hne. destruct e'; simpl; try discriminate. now destruct (Hne code). }
  destruct (fst (evaluate lib args w)) as [res | e'].
  - destruct Hrun as [E T']. rewrite T' in T. apply app_inv_head in T. subst evs.
    simpl in Hf. rewrite summaries_app, Q2. simpl.
    apply in_app_or in Hin. destruct Hin as [Hin | Hin]; [now apply Hf in Hin |].
    rewrite E. revert Hin. unfold report_outcome.
    destruct (write_manifest _ _ _ _ _ _ _ _ _) as [path | e1].
    + destruct (wer_compute _ _ _) as [wer | e1].
      * destruct (rtfx_of _ _) as [rtfx | e1]; simpl;
          intros [H | [H | [H | H]]]; try discriminate; try contradiction.
        destruct H as [H | []]. discriminate.
      * simpl. intros [H | [H | [H | [H | []]]]]; try discriminate.
        inversion H. subst e1.
        parts5; [reflexivity | | reflexivity | apply Hexit |].
        -- eexists (evs0 ++ [_; _; _]). now rewrite <- app_assoc.
        -- intros Hno. now destruct (Hno res).
    + simpl. intros [H | [H | []]]; try discriminate.
      inversion H. subst e1.
      parts5; [reflexivity | | reflexivity | apply Hexit |].
      * eexists (evs0 ++ [_]). now rewrite <- app_assoc.
      * intros Hno. now destruct (Hno res).
  - destruct Hrun as [E T']. rewrite T' in T. apply app_inv_head in T. subst evs.
    simpl in Hf. destruct (Hf e Hin) as (-> & pre & Hpre & _).
    rewrite E. parts5; [reflexivity | eauto | exact Q2 | apply Hexit | intros _; exact Q3].
Qed.
End MainClaims.

(** C10 (amended): when the prepared dataset has no sample, the evaluation
    leaves the four lists empty and the RTFx division is zero by zero: it
    raises [ZeroDivisionError], so [main] does not return.  Where it stops:
    in [write_manifest] or in [wer_metric.compute], the library calls made
    before the division, when one of them raises on the empty lists (the
    [Raised] event closes the trace); at the division when both return (the
    trace then ends with the call of the metric, and nothing is printed
    after it).  The division returns only for a total transcription time
    that is not zero, so only with at least one sample. *)
Theorem empty_dataset_division {F : Type} {PF : PyFloat F} (lib : Library F)
    args w res raw :
  fst (evaluate lib args w) = Ok res ->
  load_data lib args = Ok raw ->
  prepare_data lib (selected_rows args raw) = Ok [] ->
  res = empty_results /\
  truediv (py_sum (audio_length_s res)) (py_sum (transcription_time_s res))
    = Raise ZeroDivisionError /\
  (exists e, fst (main lib args w) = Raise e) /\
  match write_manifest lib [] [] (model_id args) (dataset_path args) (dataset args)
          (split args) [] [] with
  | Raise e =>
      fst (main lib args w) = Raise e /\
      exists pre, trace (snd (main lib args w)) = pre ++ [Raised e]
  | Ok path =>
      match wer_compute lib [] [] with
      | Raise e =>
          fst (main lib args w) = Raise e /\
          exists pre,
            trace (snd (main lib args w)) = pre ++ [CalledWer [] []; Raised e]
      | Ok wer =>
          fst (main lib args w) = Raise ZeroDivisionError /\
          exists pre,
            trace (snd (main lib args w))
              = pre ++ [Printed (ResultsSaved (abspath lib path)); CalledWer [] []]
      end
  end /\
  (forall audio times r,
      rtfx_of audio times = Ok r ->
      times <> [] /\ is_zero (py_sum times) = false).
Proof.
  intros E L P.
  assert (Hdiv : truediv (py_sum (@nil F)) (py_sum (@nil F)) = Raise ZeroDivisionError).
  { unfold truediv, py_sum. simpl. now rewrite is_zero_0. }
  assert (Hres : res = empty_results).
  { apply evaluate_inv in E.
    destruct E as (mdl & proc & name & gen & raw' & ds & rows & w' & L' & P' & R & ->).
    rewrite L in L'. inversion L'. subst raw'. rewrite P in P'. inversion P'. subst ds.
    apply map_batched_rows in R. destruct R as (outs & _ & R1 & _).
    apply map_eq_nil in R1. now subst rows. }
  subst res. simpl.
  destruct (main_run lib args w) as (evs & _ & _ & Hrun). rewrite E in Hrun.
  destruct Hrun as [Hmain Htrace]. rewrite Hmain, Htrace.
  unfold report_outcome, rtfx_of. simpl.
  rewrite Hdiv. parts5; auto.
  - destruct (write_manifest _ _ _ _ _ _ _ _ _); [| simpl; eauto].
    destruct (wer_compute _ _ _); simpl; eauto.
  - destruct (write_manifest _ _ _ _ _ _ _ _ _) as [path | e]; simpl.
    + destruct (wer_compute _ _ _) as [wer | e]; simpl; (split; [reflexivity |]).
      * eexists (trace w ++ evs ++ [_]).
        rewrite <- !app_assoc. reflexivity.
      * eexists (trace w ++ evs ++ [_; _]).
        rewrite <- !app_assoc. reflexivity.
    + split; [reflexivity |].
      eexists (trace w ++ evs ++ [_]). rewrite <- !app_assoc. reflexivity.
  - intros audio times r. unfold truediv.
    destruct (is_zero (py_sum times)) eqn:Z; [discriminate |].
    intros _. split; auto. intros ->. unfold py_sum in Z. simpl in Z.
    rewrite is_zero_0 in Z. discriminate.
Qed.

(** ** Runs with the example library *)

Ltac find_event := vm_compute; repeat first [left; reflexivity | right].

Lemma metrics_once_over_whole_run_witness :
  fst (main demo_lib demo_args (boot steady_clock)) = Ok tt /\
  exists res (evs : list (event Qc)),
    fst (evaluate demo_lib demo_args (boot steady_clock)) = Ok res /\
    wer_calls evs = [(references res, predictions res)].
Proof.
  assert (H : fst (main demo_lib demo_args (boot steady_clock)) = Ok tt)
    by (vm_compute; reflexivity).
  split; [exact H |].
  destruct (metrics_once_over_whole_run demo_lib demo_args (boot steady_clock) H)
    as (res & wer & quotient & evs & E & _ & _ & W & _).
  exists res, evs. split; assumption.
Defined.

Lemma results_aligned_witness :
  fst (evaluate demo_lib demo_args (boot steady_clock)) = Ok demo_results /\
  List.length (predictions demo_results) = List.length (references demo_results) /\
  List.length (transcription_time_s demo_results)
    = List.length (audio_length_s demo_results).
Proof.
  assert (H : fst (evaluate demo_lib demo_args (boot steady_clock)) = Ok demo_results)
    by (vm_compute; reflexivity).
  split; [exact H |].
  destruct (results_aligned demo_lib demo_args (boot steady_clock) H)
    as (raw & ds & mdl & proc & name & gen & outs & _ & _ & L1 & L2 & L3 & L4 & _).
  split; congruence.
Defined.

Lemma sample_cap_witness :
  fst (evaluate demo_lib (toy_args (Some 2) 2) (boot steady_clock))
    = Ok (value_or empty_results
            (fst (evaluate demo_lib (toy_args (Some 2) 2) (boot steady_clock)))) /\
  exists ds,
    prepare_data demo_lib (firstn 2 utterances) = Ok ds /\
    references (value_or empty_results
                  (fst (evaluate demo_lib (toy_args (Some 2) 2) (boot steady_clock))))
      = map (@s_norm_text Qc) ds.
Proof.
  assert (H : fst (evaluate demo_lib (toy_args (Some 2) 2) (boot steady_clock))
              = Ok (value_or empty_results
                      (fst (evaluate demo_lib (toy_args (Some 2) 2) (boot steady_clock)))))
    by (vm_compute; reflexivity).
  split; [exact H |].
  destruct (sample_cap demo_lib (toy_args (Some 2) 2) (boot steady_clock) H)
    as (raw & ds & L & P & R & _).
  inversion L. subst raw. exists ds. split; assumption.
Defined.

(** C5, as stated, fails for a cap of zero: every row is evaluated, not the
    first zero rows. *)
Lemma zero_cap_keeps_every_row :
  max_eval_samples (toy_args (Some 0) 2) = Some 0 /\
  fst (subsample demo_lib (toy_args (Some 0) 2) utterances (boot steady_clock))
    = Ok utterances /\
  take 0 utterances = [] /\
  references (value_or empty_results
                (fst (evaluate demo_lib (toy_args (Some 0) 2) (boot steady_clock))))
    = ["yes"; "no"; "no"].
Proof. repeat split; vm_compute; reflexivity. Qed.

Lemma library_exception_propagates_witness :
  In (Raised out_of_memory)
     (trace (snd (main failing_lib demo_args (boot steady_clock)))) /\
  fst (main failing_lib demo_args (boot steady_clock)) = Raise out_of_memory /\
  exit_status (fst (main failing_lib demo_args (boot steady_clock))) <> 0.
Proof.
  assert (H : In (Raised out_of_memory)
                 (trace (snd (main failing_lib demo_args (boot steady_clock)))))
    by find_event.
  split; [exact H |].
  destruct (library_exception_propagates failing_lib demo_args (boot steady_clock)
              out_of_memory
              (trace (snd (main failing_lib demo_args (boot steady_clock))))
              eq_refl H) as (R & _ & _ & X & _).
  split; [exact R |]. apply X. discriminate.
Defined.

Lemma empty_dataset_division_witness :
  fst (evaluate lenient_empty_lib demo_args (boot steady_clock)) = Ok empty_results /\
  load_data lenient_empty_lib demo_args = Ok [] /\
  prepare_data lenient_empty_lib (selected_rows demo_args []) = Ok [] /\
  fst (main lenient_empty_lib demo_args (boot steady_clock)) = Raise ZeroDivisionError /\
  exists pre,
    trace (snd (main lenient_empty_lib demo_args (boot steady_clock)))
      = pre ++ [Printed (ResultsSaved "/results/manifest.jsonl"); CalledWer [] []].
Proof.
  assert (H : fst (evaluate lenient_empty_lib demo_args (boot steady_clock))
              = Ok empty_results)
    by (vm_compute; reflexivity).
  split; [exact H |]. split; [reflexivity |]. split; [reflexivity |].
  destruct (empty_dataset_division lenient_empty_lib demo_args (boot steady_clock)
              (raw := []) H eq_refl eq_refl) as (_ & _ & _ & X & _).
  exact X.
Defined.

(** C10, as stated, fails: with a metric that divides the number of errors
    by the number of reference words, the run on an empty dataset stops
    inside [wer_metric.compute], which raises; the RTFx division, four lines
    further, is never reached. *)
Lemma empty_run_stops_in_the_metric :
  fst (evaluate empty_lib demo_args (boot steady_clock)) = Ok empty_results /\
  write_manifest empty_lib [] [] (model_id demo_args) (dataset_path demo_args)
    (dataset demo_args) (split demo_args) [] [] = Ok "manifest.jsonl" /\
  wer_compute empty_lib [] [] = Raise ZeroDivisionError /\
  fst (main empty_lib demo_args (boot steady_clock)) = Raise ZeroDivisionError /\
  exists pre,
    trace (snd (main empty_lib demo_args (boot steady_clock)))
      = pre ++ [CalledWer [] []; Raised ZeroDivisionError] /\
    ~ In (Raised ZeroDivisionError) pre.
Proof.
  split; [vm_compute; reflexivity |]. split; [reflexivity |].
  split; [vm_compute; reflexivity |]. split; [vm_compute; reflexivity |].
  exists [Called "AutoConfig.from_pretrained"; Called "cls_model.from_pretrained";
          Called "model.to"; Called "AutoProcessor.from_pretrained";
          Called "model.generation_config.is_multilingual";
          Called "data_utils.load_data"; Called "data_utils.prepare_data";
          CalledWriteManifest [] [] "openai/whisper-tiny.en" "esb/datasets"
            "librispeech" "test" [] [];
          Printed (ResultsSaved "/results/manifest.jsonl")].
  split; [vm_compute; reflexivity |].
  simpl. intros H.
  repeat (destruct H as [H | H]; [discriminate H |]). exact H.
Qed.

(** ** The command line *)

Module ArgparseFacts.
Import Argparse.

Lemma getattr_setattr ns name name' v :
  getattr (setattr ns name v) name' =
  if String.eqb name name' then Some v else getattr ns name'.
Proof.
  induction ns as [| [k v'] ns IH]; simpl.
  - reflexivity.
  - destruct (String.eqb k name) eqn:E; simpl.
    + apply String.eqb_eq in E. subst k. now destruct (String.eqb name name').
    + rewrite IH. destruct (String.eqb k name') eqn:E'; auto.
      apply String.eqb_eq in E'. subst k. now rewrite String.eqb_sym, E.
Qed.

Ltac by_option_string :=
  intros opt a;
  match goal with
  | |- find_action ?acts opt = _ -> _ =>
      let l := eval vm_compute in acts in change acts with l
  end;
  cbn [find_action option_string];
  repeat match goal with
    | |- context [String.eqb ?s opt] =>
        let E := fresh "E" in
        destruct (String.eqb s opt) eqn:E;
        [ apply String.eqb_eq in E; subst opt; intros H; inversion H; now simpl | ]
    end;
  discriminate.

Lemma script_parser_streaming : streaming_actions (actions script_parser).
Proof. unfold streaming_actions. by_option_string. Qed.

Lemma set_defaults_streaming :
  streaming_actions (actions (set_defaults script_parser "streaming" (VBool false))).
Proof. unfold streaming_actions. by_option_string. Qed.

Lemma take_actions_streaming acts :
  streaming_actions acts ->
  forall argv ns seen ns' seen' b,
    getattr ns "streaming" = Some (VBool b) ->
    take_actions acts argv ns seen = Ok (ns', seen') ->
    getattr ns' "streaming" = Some (VBool (b && negb (existsb is_no_streaming argv))).
Proof.
  intros Hacts. induction argv as [| [opt arg] argv IH]; simpl; intros ns seen ns' seen' b G T.
  - inversion T. subst. now rewrite andb_true_r.
  - destruct (find_action acts opt) as [a |] eqn:Fa; [| discriminate].
    apply Hacts in Fa. unfold is_no_streaming at 1. simpl.
    destruct (String.eqb opt "--no-streaming").
    + destruct Fa as [D K]. rewrite K, D in T. destruct arg; [discriminate |].
      apply IH with (b := false) in T.
      * rewrite T. simpl. now rewrite andb_false_r.
      * now rewrite getattr_setattr.
    + simpl. destruct (kind a); [| | discriminate].
      * destruct arg as [s |]; [| discriminate].
        destruct (convert ty s) as [v |]; [| discriminate].
        apply IH with (b := b) in T; auto. now rewrite getattr_setattr, Fa.
      * destruct arg; [discriminate |].
        apply IH with (b := b) in T; auto. now rewrite getattr_setattr, Fa.
Qed.

Lemma parse_args_streaming p argv ns b :
  streaming_actions (actions p) ->
  getattr (initial_namespace p) "streaming" = Some (VBool b) ->
  parse_args p argv = Ok ns ->
  getattr ns "streaming" = Some (VBool (b && negb (existsb is_no_streaming argv))).
Proof.
  intros Hacts G. unfold parse_args.
  destruct (take_actions _ _ _ _) as [[ns' seen'] | e] eqn:T; [| discriminate].
  destruct (missing_required _ _); [discriminate |]. intros E. inversion E. subst ns'.
  eapply take_actions_streaming; eauto.
Qed.

Lemma to_namespace_streaming ns args :
  to_namespace ns = Some args ->
  getattr ns "streaming" = Some (VBool (streaming args)).
Proof.
  unfold to_namespace.
  repeat match goal with
    | |- context [match getattr ns ?k with _ => _ end] =>
        destruct (getattr ns k) as [[| ? | ? | ?] |]; try discriminate
    end;
  intros E; inversion E; reflexivity.
Qed.

(** C9: in the arguments the script parses, [streaming] is [True] unless
    [--no-streaming] occurs on the command line.  The parser reads its
    defaults when it parses, and the default of the [store_false] action is
    [True] then; [set_defaults(streaming=False)] comes after and changes the
    parser only: parsing the same command line with the parser it leaves
    gives [False] whatever the command line. *)
Theorem streaming_unless_no_streaming argv ns :
  fst (script_args argv) = Ok ns ->
  getattr ns "streaming" = Some (VBool (negb (existsb is_no_streaming argv))) /\
  (forall args, to_namespace ns = Some args ->
                streaming args = negb (existsb is_no_streaming argv)) /\
  (forall ns', parse_args (snd (script_args argv)) argv = Ok ns' ->
               getattr ns' "streaming" = Some (VBool false)).
Proof.
  unfold script_args. simpl. intros P.
  assert (G : getattr ns "streaming"
              = Some (VBool (negb (existsb is_no_streaming argv)))).
  { exact (@parse_args_streaming script_parser argv ns true
             script_parser_streaming eq_refl P). }
  split; [exact G | split].
  - intros args A. apply to_namespace_streaming in A. congruence.
  - intros ns' P'.
    exact (@parse_args_streaming _ argv ns' false set_defaults_streaming eq_refl P').
Qed.

Lemma streaming_unless_no_streaming_witness :
  fst (script_args demo_argv)
    = Ok (value_or [] (fst (script_args demo_argv))) /\
  getattr (value_or [] (fst (script_args demo_argv))) "streaming" = Some (VBool true).
Proof.
  assert (H : fst (script_args demo_argv) = Ok (value_or [] (fst (script_args demo_argv))))
    by (vm_compute; reflexivity).
  split; [exact H |].
  destruct (streaming_unless_no_streaming demo_argv H) as (G & _).
  exact G.
Defined.
End ArgparseFacts.

(** ** [benchmark]: timing and transcription *)

Section ExactArithmetic.
Local Open Scope Qc_scope.

Lemma Qc_of_Z_succ n : Qc_of_Z (Z.of_nat (S n)) = Qc_of_Z (Z.of_nat n) + 1.
Proof.
  apply Qc_is_canon. unfold Qc_of_Z, Qcplus, Q2Qc. cbn [this].
  rewrite !Qred_correct, Nat2Z.inj_succ. unfold Z.succ.
  rewrite inject_Z_plus. reflexivity.
Qed.

Lemma Qc_sum_repeat (x : Qc) n : forall acc,
  fold_left Qcplus (repeat x n) acc = acc + Qc_of_Z (Z.of_nat n) * x.
Proof.
  induction n as [| n IH]; intros acc.
  - simpl. change (Qc_of_Z 0) with 0. ring.
  - cbn [repeat fold_left]. rewrite IH, Qc_of_Z_succ. ring.
Qed.

Lemma Qc_is_zero_false (x : Qc) : is_zero x = false -> x <> 0.
Proof.
  simpl. intros E ->. change (Qc_of_Z 0) with 0 in E.
  unfold Qc_eq_bool in E. destruct (Qc_eq_dec 0 0); congruence.
Qed.

Lemma Qc_truediv_inv (x y r : Qc) : truediv x y = Ok r -> y <> 0 /\ r = x / y.
Proof.
  unfold truediv. destruct (is_zero y) eqn:Z; [discriminate |].
  intros E. inversion E. split; auto. now apply Qc_is_zero_false.
Qed.

(** C3 (amended): a batch that [benchmark] returns is not empty; every
    recorded transcription time is the measured runtime divided by the batch
    size, there is one per sample, all equal; and in exact arithmetic they
    add up to the runtime. *)
Theorem runtime_shared_evenly (lib : Library Qc) args mdl proc name gen b w mb :
  fst (benchmark lib args mdl proc name gen b w) = Ok mb ->
  let n := List.length (b_audio b) in
  let per_sample := runtime_at w / Qc_of_Z (Z.of_nat n) in
  n <> 0%nat /\
  m_transcription_time_s mb = repeat per_sample n /\
  (forall t, In t (m_transcription_time_s mb) -> t = per_sample) /\
  py_sum (m_transcription_time_s mb) = runtime_at w.
Proof.
  intros E n per_sample.
  apply benchmark_columns in E. destruct E as (_ & _ & _ & per & D & T).
  apply Qc_truediv_inv in D. destruct D as [Hn ->]. fold n in Hn, T.
  fold per_sample in T. rewrite T.
  split; [| split; [reflexivity | split]].
  - intros Z. apply Hn. rewrite Z. reflexivity.
  - intros t Hin. now apply repeat_spec in Hin.
  - unfold py_sum. simpl. rewrite Qc_sum_repeat. unfold per_sample.
    change (Qc_of_Z 0) with 0. rewrite Qcplus_0_l. now apply Qcmult_div_r.
Qed.
End ExactArithmetic.

Lemma runtime_shared_evenly_witness :
  fst (benchmark demo_lib demo_args tt tt "input_features" (Some demo_gen)
         (to_batch utterances) (boot steady_clock))
  = Ok (value_or
          {| m_audio := []; m_norm_text := []; m_audio_length_s := [];
             m_transcription_time_s := []; m_predictions := []; m_references := [] |}
          (fst (benchmark demo_lib demo_args tt tt "input_features" (Some demo_gen)
                  (to_batch utterances) (boot steady_clock)))) /\
  py_sum (m_transcription_time_s
            (value_or
               {| m_audio := []; m_norm_text := []; m_audio_length_s := [];
                  m_transcription_time_s := []; m_predictions := [];
                  m_references := [] |}
               (fst (benchmark demo_lib demo_args tt tt "input_features"
                       (Some demo_gen) (to_batch utterances) (boot steady_clock)))))
  = runtime_at (boot steady_clock).
Proof.
  split; [vm_compute; reflexivity |].
  refine (proj2 (proj2 (proj2
    (runtime_shared_evenly demo_lib demo_args tt tt "input_features" (Some demo_gen)
       (to_batch utterances) (boot steady_clock) _)))).
  vm_compute; reflexivity.
Defined.

(** C3, as stated, fails in binary64: for a batch of eleven the eleven equal
    shares of the runtime add up to another float than the runtime. *)
Lemma equal_shares_sum_binary64 :
  let w := boot measured_clock in
  match fst (benchmark float_lib demo_args tt tt "input_features" (Some demo_gen)
               (to_batch eleven) w) with
  | Ok mb =>
      m_transcription_time_s mb = repeat (PrimFloat.div (runtime_at w) 11%float) 11 /\
      PrimFloat.eqb (py_sum (m_transcription_time_s mb)) (runtime_at w) = false /\
      py_sum (m_transcription_time_s mb) <> runtime_at w
  | Raise _ => False
  end.
Proof.
  vm_compute. repeat split.
  match goal with
  | |- ?a = ?b -> False =>
      intros E;
      assert (X : PrimFloat.eqb a b = true) by (rewrite E; vm_compute; reflexivity);
      vm_compute in X; discriminate
  end.
Qed.

Section Determinism.
Context {F : Type} {PF : PyFloat F} (lib : Library F).

(** With libraries that keep no state: on one batch, in any two worlds,
    [benchmark] raises the same exception or returns the same predictions,
    references, audio durations and texts; the transcription times are the
    share of the runtime measured in each world, and only they depend on
    it. *)
Lemma batch_result_but_for_timing args mdl proc name gen (b : batch F) w1 w2 :
  match fst (benchmark lib args mdl proc name gen b w1),
        fst (benchmark lib args mdl proc name gen b w2) with
  | Ok m1, Ok m2 =>
      m_predictions m1 = m_predictions m2 /\
      m_references m1 = m_references m2 /\
      m_audio_length_s m1 = m_audio_length_s m2 /\
      m_norm_text m1 = m_norm_text m2 /\
      exists per1 per2,
        truediv (runtime_at w1) (of_int (Z.of_nat (List.length (b_audio b)))) = Ok per1 /\
        truediv (runtime_at w2) (of_int (Z.of_nat (List.length (b_audio b)))) = Ok per2 /\
        m_transcription_time_s m1 = repeat per1 (List.length (b_audio b)) /\
        m_transcription_time_s m2 = repeat per2 (List.length (b_audio b))
  | Raise e1, Raise e2 => e1 = e2
  | _, _ => False
  end.
Proof.
  destruct (benchmark_result lib args mdl proc name gen b) as (r & Hr).
  rewrite !Hr. destruct r as [texts | e]; [| reflexivity].
  rewrite (stateless_result w1 w2 (normalize_all_stateless lib texts)).
  unfold truediv. destruct (is_zero _); [reflexivity |].
  destruct (fst (normalize_all lib texts w2)) as [preds | e]; [| reflexivity].
  simpl. parts5; try reflexivity. do 2 eexists. repeat split; reflexivity.
Qed.
End Determinism.


(** ** The pre-processing path *)

Section Preprocessing.
Context {F : Type} {PF : PyFloat F} (lib : Library F).

(** C4 (amended): a model that cannot generate (CTC) is pre-processed with
    [truncation=False], [padding="longest"] and the attention mask returned;
    a model that can generate is pre-processed that way exactly when the
    first audio of the batch has more than [n_samples] values, and with the
    standard call otherwise. *)
Theorem preprocessing_path mdl proc (audios : list (list F)) n w :
  (can_generate lib mdl = true -> audios <> [] /\ n_samples lib proc = Ok n) ->
  fst (preprocess lib mdl proc audios w) =
    processor_call lib proc audios
      (if negb (can_generate lib mdl) || (Z.of_nat (List.length (hd [] audios)) >? n)
       then kwargs_longest else kwargs_standard) /\
  truncation kwargs_longest = Some false /\
  padding kwargs_longest = Some "longest" /\
  return_attention_mask kwargs_longest = Some true /\
  truncation kwargs_standard = None /\
  padding kwargs_standard = None.
Proof.
  intros H. split; [| now repeat split].
  unfold preprocess, use_longest, bind.
  destruct (can_generate lib mdl); simpl.
  - destruct (H eq_refl) as [Hne Hn]. destruct audios as [| a rest]; [easy |].
    simpl. unfold call, observe. rewrite Hn. simpl.
    destruct (Z.of_nat (List.length a) >? n); simpl;
      now destruct (processor_call lib proc (a :: rest) _).
  - unfold call, observe. now destruct (processor_call lib proc audios _).
Qed.
End Preprocessing.

Lemma preprocessing_path_witness :
  (can_generate demo_lib tt = true ->
   map (@s_audio Qc) utterances <> [] /\ n_samples demo_lib tt = Ok 2) /\
  fst (preprocess demo_lib tt tt (map (@s_audio Qc) utterances) (boot steady_clock))
    = processor_call demo_lib tt (map (@s_audio Qc) utterances) kwargs_standard.
Proof.
  assert (H : can_generate demo_lib tt = true ->
              map (@s_audio Qc) utterances <> [] /\ n_samples demo_lib tt = Ok 2)
    by (intros _; split; [discriminate | reflexivity]).
  split; [exact H |].
  exact (proj1 (@preprocessing_path _ demo_lib tt tt (map (@s_audio Qc) utterances)
                  2 (boot steady_clock) H)).
Defined.

(** C4, as stated, fails on a batch that mixes short and long audio: only
    the first audio is looked at.  With [n_samples = 2], a batch with a long
    second audio takes the standard path, and a batch with a long first
    audio takes the long-form path for its short audio too. *)
Lemma first_audio_decides_the_path :
  let short_long := [[q 1 2]; [q 0 1; q 1 4; q 1 8]] in
  let long_short := [[q 0 1; q 1 4; q 1 8]; [q 1 2]] in
  can_generate demo_lib tt = true /\
  n_samples demo_lib tt = Ok 2 /\
  Exists (fun a => Z.of_nat (List.length a) > 2) short_long /\
  fst (preprocess demo_lib tt tt short_long (boot steady_clock))
    = Ok (short_long, kwargs_standard) /\
  Exists (fun a => Z.of_nat (List.length a) <= 2) long_short /\
  fst (preprocess demo_lib tt tt long_short (boot steady_clock))
    = Ok (long_short, kwargs_longest).
Proof.
  cbv zeta. split; [reflexivity | split; [reflexivity |]].
  split; [apply Exists_cons_tl, Exists_cons_hd; simpl; lia |].
  split; [vm_compute; reflexivity |].
  split; [apply Exists_cons_tl, Exists_cons_hd; simpl; lia |].
  vm_compute; reflexivity.
Qed.

(** ** RTFx *)

Section Rounding.
Local Open Scope Q_scope.

Lemma round_half_even_bounds x :
  (Qfloor x <= round_half_even x <= Qfloor x + 1)%Z.
Proof.
  unfold round_half_even.
  destruct (Qcompare _ _); [destruct (Z.even _) | |]; lia.
Qed.

Lemma round_half_even_le x y : x <= y -> (round_half_even x <= round_half_even y)%Z.
Proof.
  intros Hxy. pose proof (Qfloor_resp_le _ _ Hxy) as Hf.
  destruct (Z.eq_dec (Qfloor x) (Qfloor y)) as [E | N].
  - unfold round_half_even. rewrite <- E.
    destruct (Qcompare_spec (x - inject_Z (Qfloor x)) (1 # 2)) as [X | X | X];
      destruct (Qcompare_spec (y - inject_Z (Qfloor x)) (1 # 2)) as [Y | Y | Y];
      try (destruct (Z.even (Qfloor x))); try lia; exfalso; lra.
  - pose proof (round_half_even_bounds x). pose proof (round_half_even_bounds y). lia.
Qed.

Lemma Qc_round2_le (x y : Qc) : (x <= y)%Qc -> (Qc_round2 x <= Qc_round2 y)%Qc.
Proof.
  unfold Qcle, Qc_round2, Q2Qc. cbn [this]. intros Hxy. rewrite !Qred_correct.
  assert (H : (round_half_even (100 * x) <= round_half_even (100 * y))%Z)
    by (apply round_half_even_le; lra).
  rewrite Zle_Qle in H. unfold Qdiv. apply Qmult_le_compat_r; [exact H | easy].
Qed.

Lemma Qc_div_lt (a t1 t2 : Qc) :
  (0 < a)%Qc -> (0 < t1)%Qc -> (t1 < t2)%Qc -> (a / t2 < a / t1)%Qc.
Proof.
  unfold Qclt, Qcdiv, Qcmult, Qcinv, Q2Qc. cbn [this]. intros Ha H1 H12.
  rewrite !Qred_correct. change (0 < a) in Ha. change (0 < t1) in H1.
  assert (H2 : 0 < t2) by lra.
  apply Qmult_lt_l; [exact Ha |].
  exact (proj1 (Qinv_lt_contravar t1 t2 H1 H2) H12).
Qed.

Lemma Qc_positive_not_zero (x : Qc) : (0 < x)%Qc -> is_zero x = false.
Proof.
  intros H. simpl. unfold Qc_eq_bool. change (Qc_of_Z 0) with 0%Qc.
  destruct (Qc_eq_dec x 0) as [E | _]; [| reflexivity].
  subst x. now apply Qclt_not_eq in H.
Qed.

End Rounding.



(** In binary64 the quotient itself can fail to grow: one second of audio
    transcribed in 7 s and in the next float above 7 s gives the same
    quotient. *)
Lemma quotients_tie_in_binary64 :
  PrimFloat.ltb 0x1.cp+2%float 0x1.c000000000001p+2%float = true /\
  truediv (py_sum [1%float]) (py_sum [0x1.cp+2%float])
    = truediv (py_sum [1%float]) (py_sum [0x1.c000000000001p+2%float]) /\
  rtfx_of [1%float] [0x1.cp+2%float] = rtfx_of [1%float] [0x1.c000000000001p+2%float].
Proof. repeat split; vm_compute; reflexivity. Qed.

(** * Further properties *)

(** ** The command line: defaults, required options, repeated options *)

Module CommandLine.
Import Argparse ArgparseFacts.

Lemma store_options_owned opt dst ty :
  In (opt, dst, ty) store_options ->
  owns (actions script_parser) opt dst (Store ty).
Proof.
  unfold store_options. simpl.
  intros H; repeat (destruct H as [H | H]; [inversion H; subst; clear H |]);
    try contradiction; unfold owns; by_option_string.
Qed.

Lemma last_value_absent opt ty argv : forall cur,
  occurs opt argv = false -> last_value opt ty argv cur = cur.
Proof.
  induction argv as [| [o arg] argv IH]; simpl; intros cur H; [reflexivity |].
  apply orb_false_elim in H. destruct H as [H1 H2]. rewrite H1. now apply IH.
Qed.

Lemma last_value_app opt ty l1 : forall l2 cur,
  last_value opt ty (l1 ++ l2) cur = last_value opt ty l2 (last_value opt ty l1 cur).
Proof.
  induction l1 as [| [o arg] l1 IH]; simpl; intros l2 cur; [reflexivity |].
  destruct (String.eqb o opt); apply IH.
Qed.

(** What a successful run of the actions leaves in the attribute of a
    [store] option, and what it has seen. *)
Lemma take_actions_store acts opt dst ty :
  owns acts opt dst (Store ty) ->
  forall argv ns seen ns' seen',
    take_actions acts argv ns seen = Ok (ns', seen') ->
    getattr ns' dst = last_value opt ty argv (getattr ns dst) /\
    (forall arg, In (opt, arg) argv ->
                 exists s v, arg = Some s /\ convert ty s = Some v) /\
    (existsb (String.eqb dst) seen' = true ->
     existsb (String.eqb dst) seen = true \/ occurs opt argv = true).
Proof.
  intros Hacts. induction argv as [| [o arg] argv IH]; simpl; intros ns seen ns' seen' T.
  - inversion T. subst. split; [reflexivity | split; [intros arg [] | auto]].
  - destruct (find_action acts o) as [a |] eqn:Fa; [| discriminate].
    apply Hacts in Fa. destruct (String.eqb o opt) eqn:Eo.
    + destruct Fa as [D K]. rewrite K, D in T.
      destruct arg as [s |]; [| discriminate].
      destruct (convert ty s) as [v |] eqn:Cv; [| discriminate].
      apply IH in T. destruct T as (G & W & S).
      rewrite getattr_setattr, String.eqb_refl in G.
      split; [exact G | split].
      * intros arg [E | Hin]; [inversion E; eauto | now apply W].
      * intros _. right. reflexivity.
    + assert (Hns : forall v, getattr (setattr ns (dest a) v) dst = getattr ns dst)
        by (intros v; now rewrite getattr_setattr, Fa).
      assert (Hseen : forall l, existsb (String.eqb dst) (dest a :: l)
                                = existsb (String.eqb dst) l)
        by (intros l; simpl; now rewrite String.eqb_sym, Fa).
      assert (Hin : forall arg', In (opt, arg') ((o, arg) :: argv) -> In (opt, arg') argv).
      { intros arg' [E | Hin]; [| exact Hin].
        inversion E. subst o. now rewrite String.eqb_refl in Eo. }
      destruct (kind a); [| | discriminate].
      * destruct arg as [s |]; [| discriminate].
        destruct (convert ty0 s) as [v |]; [| discriminate].
        apply IH in T. destruct T as (G & W & S). rewrite Hns in G. rewrite Hseen in S.
        split; [exact G | split; [intros arg' H'; apply W, Hin, H' | exact S]].
      * destruct arg; [discriminate |].
        apply IH in T. destruct T as (G & W & S). rewrite Hns in G. rewrite Hseen in S.
        split; [exact G | split; [intros arg' H'; apply W, Hin, H' | exact S]].
Qed.

Lemma parse_args_store opt dst ty argv ns :
  In (opt, dst, ty) store_options ->
  parse_args script_parser argv = Ok ns ->
  getattr ns dst = last_value opt ty argv (getattr (initial_namespace script_parser) dst) /\
  (forall arg, In (opt, arg) argv -> exists s v, arg = Some s /\ convert ty s = Some v) /\
  (forall a, In a (actions script_parser) -> dest a = dst -> required a = true ->
             occurs opt argv = true).
Proof.
  intros Hin. apply store_options_owned in Hin. unfold parse_args.
  destruct (take_actions _ _ _ _) as [[ns' seen'] | e] eqn:T; [| discriminate].
  destruct (missing_required _ _) eqn:Mr; [discriminate |]. intros E. inversion E. subst ns'.
  destruct (take_actions_store Hin _ _ _ T) as (G & W & S).
  split; [exact G | split; [exact W |]].
  intros a Ha Hd Hr. unfold missing_required in Mr.
  assert (Hex : required a && negb (existsb (String.eqb (dest a)) seen') = false).
  { destruct (required a && negb (existsb (String.eqb (dest a)) seen')) eqn:X; auto.
    assert (existsb (fun a => required a && negb (existsb (String.eqb (dest a)) seen'))
                    (actions script_parser) = true)
      by (apply existsb_exists; eauto).
    congruence. }
  rewrite Hr, Hd in Hex. simpl in Hex. apply negb_false_iff in Hex.
  destruct (S Hex) as [H | H]; [discriminate | exact H].
Qed.

Lemma last_value_cases opt ty argv : forall cur,
  (forall arg, In (opt, arg) argv -> exists s v, arg = Some s /\ convert ty s = Some v) ->
  (occurs opt argv = false /\ last_value opt ty argv cur = cur) \/
  (occurs opt argv = true /\
   exists s v, convert ty s = Some v /\ last_value opt ty argv cur = Some v).
Proof.
  induction argv as [| [o arg] argv IH]; simpl; intros cur W; [now left |].
  destruct (String.eqb o opt) eqn:Eo; simpl.
  - right. split; [reflexivity |]. apply String.eqb_eq in Eo. subst o.
    destruct (W arg (or_introl eq_refl)) as (s & v & -> & Cv). rewrite Cv.
    destruct (IH (Some v) (fun arg' H => W arg' (or_intror H)))
      as [[_ L] | [_ (s' & v' & C' & L)]]; rewrite L; eauto.
  - apply IH. intros arg' H. apply W. now right.
Qed.

(** X1 (lines 131-167): an option that is not on the command line leaves
    its default in the parsed arguments: [esb/datasets], [test], [-1], [16]
    and [None]. *)
Theorem absent_options_keep_defaults argv ns :
  fst (script_args argv) = Ok ns ->
  (occurs "--dataset_path" argv = false ->
   getattr ns "dataset_path" = Some (VStr "esb/datasets")) /\
  (occurs "--split" argv = false -> getattr ns "split" = Some (VStr "test")) /\
  (occurs "--device" argv = false -> getattr ns "device" = Some (VInt (-1))) /\
  (occurs "--batch_size" argv = false -> getattr ns "batch_size" = Some (VInt 16)) /\
  (occurs "--max_eval_samples" argv = false ->
   getattr ns "max_eval_samples" = Some VNone).
Proof.
  unfold script_args. simpl. intros P.
  assert (H : forall opt dst ty, In (opt, dst, ty) store_options ->
                occurs opt argv = false ->
                getattr ns dst = getattr (initial_namespace script_parser) dst).
  { intros opt dst ty Hin Ho.
    destruct (parse_args_store _ Hin P) as (G & _). now rewrite G, last_value_absent. }
  parts5; intros Ho;
    match goal with
    | |- getattr ns ?dst = _ =>
        match type of Ho with
        | occurs ?opt _ = false =>
            erewrite (H opt dst _ _ Ho); reflexivity
        end
    end.
  Unshelve. all: unfold store_options; simpl; auto 10.
Qed.

Lemma required_occur argv ns :
  parse_args script_parser argv = Ok ns ->
  occurs "--model_id" argv = true /\ occurs "--dataset" argv = true.
Proof.
  intros P. split.
  - assert (Hin : In ("--model_id", "model_id", TStr) store_options)
      by (unfold store_options; simpl; auto).
    destruct (parse_args_store _ Hin P) as (_ & _ & R).
    apply (R {| option_string := "--model_id"; dest := "model_id"; kind := Store TStr;
                default := Some VNone; required := true |}); auto.
    vm_compute. auto.
  - assert (Hin : In ("--dataset", "dataset", TStr) store_options)
      by (unfold store_options; simpl; auto).
    destruct (parse_args_store _ Hin P) as (_ & _ & R).
    apply (R {| option_string := "--dataset"; dest := "dataset"; kind := Store TStr;
                default := Some VNone; required := true |}); auto.
    vm_compute. auto 10.
Qed.

(** X2 (lines 125-143, 174): the parser accepts a command line only when
    [--model_id] and [--dataset] are both on it. *)
Theorem required_options_present argv ns :
  fst (script_args argv) = Ok ns ->
  occurs "--model_id" argv = true /\ occurs "--dataset" argv = true.
Proof. unfold script_args. simpl. apply required_occur. Qed.

(** X3 (lines 125-167, 174): when an option is given several times, the
    last occurrence decides: the attribute holds its converted argument. *)
Theorem last_occurrence_wins opt dst ty argv ns pre s post :
  In (opt, dst, ty) store_options ->
  fst (script_args argv) = Ok ns ->
  argv = pre ++ (opt, Some s) :: post ->
  occurs opt post = false ->
  getattr ns dst = convert ty s /\ convert ty s <> None.
Proof.
  unfold script_args. simpl. intros Hin P -> Hpost.
  destruct (parse_args_store _ Hin P) as (G & W & _).
  rewrite G, last_value_app. simpl. rewrite String.eqb_refl.
  rewrite last_value_absent by exact Hpost. split; [reflexivity |].
  destruct (W (Some s)) as (s' & v & E & Cv).
  - apply in_or_app. right. now left.
  - inversion E. subst s'. congruence.
Qed.
End CommandLine.

(** ** The command line: what reaches [main] *)

Module Invocation.
Import Argparse ArgparseFacts CommandLine.

Lemma convert_str s v : convert TStr s = Some v -> v = VStr s.
Proof. simpl. congruence. Qed.

Lemma convert_int s v : convert TInt s = Some v -> exists z, v = VInt z.
Proof.
  simpl. destruct (int_of_string s) as [z |]; simpl; [| discriminate].
  intros E. inversion E. eauto.
Qed.

(** The attribute of a [store] option after a successful parse: its default,
    or a converted argument; a converted argument when the option occurs. *)
Lemma attribute_shape opt dst ty argv ns :
  In (opt, dst, ty) store_options ->
  parse_args script_parser argv = Ok ns ->
  (occurs opt argv = false /\
   getattr ns dst = getattr (initial_namespace script_parser) dst) \/
  (occurs opt argv = true /\
   exists s v, convert ty s = Some v /\ getattr ns dst = Some v).
Proof.
  intros Hin P. destruct (parse_args_store _ Hin P) as (G & W & _).
  rewrite G. now apply last_value_cases.
Qed.

Ltac in_store_options := unfold store_options; simpl; auto 10.

Lemma parsed_namespace_typed argv ns :
  parse_args script_parser argv = Ok ns ->
  exists args, to_namespace ns = Some args.
Proof.
  intros P.
  pose proof P as Hreq. apply required_occur in Hreq. destruct Hreq as [Om Od].
  assert (Hm : exists s, getattr ns "model_id" = Some (VStr s)).
  { assert (Hin : In ("--model_id", "model_id", TStr) store_options) by in_store_options.
    eapply attribute_shape in Hin; [| exact P].
    destruct Hin as [[O _] | [_ (s & v & C & G)]];
      [congruence |]. apply convert_str in C. subst v. eauto. }
  assert (Hd : exists s, getattr ns "dataset" = Some (VStr s)).
  { assert (Hin : In ("--dataset", "dataset", TStr) store_options) by in_store_options.
    eapply attribute_shape in Hin; [| exact P].
    destruct Hin as [[O _] | [_ (s & v & C & G)]];
      [congruence |]. apply convert_str in C. subst v. eauto. }
  assert (Hp : exists s, getattr ns "dataset_path" = Some (VStr s)).
  { assert (Hin : In ("--dataset_path", "dataset_path", TStr) store_options) by in_store_options.
    eapply attribute_shape in Hin; [| exact P].
    destruct Hin
      as [[_ G] | [_ (s & v & C & G)]]; [rewrite G; vm_compute; eauto |].
    apply convert_str in C. subst v. eauto. }
  assert (Hs : exists s, getattr ns "split" = Some (VStr s)).
  { assert (Hin : In ("--split", "split", TStr) store_options) by in_store_options.
    eapply attribute_shape in Hin; [| exact P].
    destruct Hin
      as [[_ G] | [_ (s & v & C & G)]]; [rewrite G; vm_compute; eauto |].
    apply convert_str in C. subst v. eauto. }
  assert (Hv : exists z, getattr ns "device" = Some (VInt z)).
  { assert (Hin : In ("--device", "device", TInt) store_options) by in_store_options.
    eapply attribute_shape in Hin; [| exact P].
    destruct Hin
      as [[_ G] | [_ (s & v & C & G)]]; [rewrite G; vm_compute; eauto |].
    apply convert_int in C. destruct C as [z ->]. eauto. }
  assert (Hb : exists z, getattr ns "batch_size" = Some (VInt z)).
  { assert (Hin : In ("--batch_size", "batch_size", TInt) store_options) by in_store_options.
    eapply attribute_shape in Hin; [| exact P].
    destruct Hin
      as [[_ G] | [_ (s & v & C & G)]]; [rewrite G; vm_compute; eauto |].
    apply convert_int in C. destruct C as [z ->]. eauto. }
  assert (Hx : getattr ns "max_eval_samples" = Some VNone \/
               exists z, getattr ns "max_eval_samples" = Some (VInt z)).
  { assert (Hin : In ("--max_eval_samples", "max_eval_samples", TInt) store_options) by in_store_options.
    eapply attribute_shape in Hin; [| exact P].
    destruct Hin
      as [[_ G] | [_ (s & v & C & G)]]; [left; rewrite G; reflexivity |].
    apply convert_int in C. destruct C as [z ->]. eauto. }
  pose proof (@parse_args_streaming script_parser argv ns true
                script_parser_streaming eq_refl P) as Hst.
  destruct Hm as [m Hm], Hd as [d Hd], Hp as [dp Hp], Hs as [sp Hs],
           Hv as [dev Hv], Hb as [bs Hb].
  unfold to_namespace. rewrite Hm, Hp, Hd, Hs, Hv, Hb, Hst.
  destruct Hx as [Hx | [z Hx]]; rewrite Hx; eauto.
Qed.

(** X4 (lines 14-32, 122-177): every command line the parser accepts gives
    [main] the eight attributes it reads, with the types it expects; the
    script then is [main] on them. *)
Theorem accepted_command_line_runs_main argv ns :
  fst (script_args argv) = Ok ns ->
  exists args,
    to_namespace ns = Some args /\
    forall F (PF : PyFloat F) (lib : Library F) w,
      script lib argv w = main lib args w.
Proof.
  intros P. pose proof P as P'. unfold script_args in P'. simpl in P'.
  apply parsed_namespace_typed in P'. destruct P' as [args A].
  exists args. split; [exact A |].
  intros F PF lib w. unfold script, bind, lift. rewrite P, A. reflexivity.
Qed.

Lemma accepted_command_line_runs_main_witness :
  fst (script_args demo_argv) = Ok (value_or [] (fst (script_args demo_argv))) /\
  exists args, to_namespace (value_or [] (fst (script_args demo_argv))) = Some args.
Proof.
  assert (H : fst (script_args demo_argv) = Ok (value_or [] (fst (script_args demo_argv))))
    by (vm_compute; reflexivity).
  split; [exact H |].
  destruct (@accepted_command_line_runs_main demo_argv _ H) as (args & A & _).
  exists args. exact A.
Defined.

End Invocation.

(** ** The clock and the timing column *)

Section Timing.
Context {F : Type} {PF : PyFloat F} (lib : Library F).

Lemma stateless_clock {A} (m : M F A) w :
  stateless m -> wall (snd (m w)) = wall w /\ ticks (snd (m w)) = ticks w.
Proof. intros (r & evs & Hm). rewrite Hm. simpl. auto. Qed.

Lemma truediv_ok (x y r : F) : truediv x y = Ok r -> r = fquot x y.
Proof. unfold truediv. destruct (is_zero y); congruence. Qed.

Lemma truediv_raise (x y : F) e : truediv x y = Raise e -> e = ZeroDivisionError.
Proof. unfold truediv. destruct (is_zero y); congruence. Qed.

(** [benchmark] leaves the clock function as it is and reads it twice when
    it returns, once or twice when it raises. *)
Lemma benchmark_clock args mdl proc name gen (b : batch F) w :
  exists r w',
    benchmark lib args mdl proc name gen b w = (r, w') /\
    wall w' = wall w /\
    (ticks w' = S (ticks w) \/ ticks w' = S (S (ticks w))) /\
    (forall mb, r = Ok mb -> ticks w' = S (S (ticks w))).
Proof.
  destruct (transcribe_stateless lib args mdl proc name gen (b_audio b)) as (r & evs & Ht).
  unfold benchmark. unfold bind at 1. simpl. unfold bind at 1. rewrite Ht.
  destruct r as [texts | e].
  2: { do 2 eexists. split; [reflexivity |]. simpl.
       split; [auto | split; [auto | discriminate]]. }
  unfold bind at 1. simpl. unfold bind at 1. unfold lift at 1.
  destruct (truediv _ _) as [per | e].
  2: { do 2 eexists. split; [reflexivity |]. simpl.
       split; [auto | split; [auto | discriminate]]. }
  destruct (normalize_all_stateless lib texts) as (rn & evsn & Hn).
  fold (normalize_all lib texts). unfold bind at 1. rewrite Hn.
  destruct rn as [preds | e]; do 2 eexists; (split; [reflexivity |]); simpl; auto.
Qed.

(** One step of the batched [map]: [benchmark] on the batch, then the split
    into rows. *)
Lemma map_step args mdl proc name gen (rs : list (sample F)) w rows :
  fst ((mb <- benchmark lib args mdl proc name gen (to_batch rs) ;;
        call "dataset.map" (to_examples mb)) w) = Ok rows ->
  let w' := snd ((mb <- benchmark lib args mdl proc name gen (to_batch rs) ;;
                  call "dataset.map" (to_examples mb)) w) in
  wall w' = wall w /\ ticks w' = S (S (ticks w)) /\
  map (@r_transcription_time_s F) rows
  = repeat (fquot (runtime_at w) (of_int (Z.of_nat (List.length rs)))) (List.length rs).
Proof.
  intros E w'. subst w'. revert E. unfold bind.
  destruct (benchmark_clock args mdl proc name gen (to_batch rs) w)
    as (r & w1 & Eb & W & _ & T).
  pose proof (@benchmark_columns F PF lib args mdl proc name gen (to_batch rs) w) as C.
  rewrite Eb in *. destruct r as [mb | e]; simpl in *; [| discriminate].
  specialize (T mb eq_refl). destruct (C mb eq_refl) as (_ & _ & _ & per & D & Tm).
  apply truediv_ok in D. rewrite length_map in D, Tm.
  unfold call, observe. destruct (to_examples mb) as [rows' |] eqn:Ex; [| discriminate].
  simpl. intros R. inversion R. subst rows'.
  apply to_examples_inv in Ex. destruct Ex as (_ & _ & _ & _ & M2 & _).
  rewrite M2, Tm, D. auto.
Qed.

Lemma map_batched_times args mdl proc name gen : forall batches w per_batch,
  fst (mapM (fun rs => mb <- benchmark lib args mdl proc name gen (to_batch rs) ;;
                       call "dataset.map" (to_examples mb)) batches w) = Ok per_batch ->
  map (@r_transcription_time_s F) (concat per_batch)
  = expected_times (wall w) (ticks w) batches.
Proof.
  induction batches as [| rs batches IH]; simpl; intros w per_batch E.
  - inversion E. reflexivity.
  - apply bind_inv in E. destruct E as (rows & Er & E).
    apply bind_inv in E. destruct E as (rest & Erest & E). inversion E. subst per_batch.
    pose proof (map_step _ _ _ _ _ _ _ Er) as (W & T & Tm).
    apply IH in Erest. rewrite W, T in Erest.
    simpl. rewrite map_app, Tm, Erest. reflexivity.
Qed.

Lemma evaluate_inv_clock args w res :
  fst (evaluate lib args w) = Ok res ->
  exists mdl proc name gen raw ds rows w',
    wall w' = wall w /\ ticks w' = ticks w /\
    (can_generate lib mdl = true -> gen <> None) /\
    load_data lib args = Ok raw /\
    prepare_data lib (selected_rows args raw) = Ok ds /\
    fst (map_batched (benchmark lib args mdl proc name gen)
           (batch_size args) ds w') = Ok rows /\
    res = collect rows.
Proof.
  assert (Hcall : forall A f (r : result A), stateless (@call F A f r))
    by (intros; apply stateless_call).
  assert (Hstep : forall A (m : M F A) w0, stateless m ->
            wall (snd (m w0)) = wall w0 /\ ticks (snd (m w0)) = ticks w0)
    by (intros; now apply stateless_clock).
  unfold evaluate. intros E.
  apply bind_inv in E. destruct E as (cfg & _ & E).
  destruct (Hstep _ _ w (Hcall _ "AutoConfig.from_pretrained"
              (AutoConfig_from_pretrained lib (model_id args)))) as [W1 T1].
  set (w1 := snd (call _ _ w)) in *.
  apply bind_inv in E. destruct E as (mdl0 & _ & E).
  match type of E with context [snd (?m w1)] =>
    destruct (Hstep _ m w1 (Hcall _ _ _)) as [W2 T2]; set (w2 := snd (m w1)) in * end.
  apply bind_inv in E. destruct E as (mdl & _ & E).
  match type of E with context [snd (?m w2)] =>
    destruct (Hstep _ m w2 (Hcall _ _ _)) as [W3 T3]; set (w3 := snd (m w2)) in * end.
  apply bind_inv in E. destruct E as (proc & _ & E).
  match type of E with context [snd (?m w3)] =>
    destruct (Hstep _ m w3 (Hcall _ _ _)) as [W4 T4]; set (w4 := snd (m w3)) in * end.
  apply bind_inv in E. destruct E as (name & _ & E).
  match type of E with context [snd (?m w4)] =>
    assert (S5 : stateless m) by (destruct (model_input_names lib proc);
                                  auto using stateless_raise, stateless_ret);
    destruct (Hstep _ m w4 S5) as [W5 T5]; set (w5 := snd (m w4)) in * end.
  apply bind_inv in E. destruct E as (gen & Egen & E).
  assert (Hgen : can_generate lib mdl = true -> gen <> None).
  { intros Hc. revert Egen. unfold make_gen_kwargs. rewrite Hc.
    unfold bind, call, observe, ret.
    destruct (is_multilingual lib mdl); simpl; intros X; inversion X; discriminate. }
  match type of E with context [snd (?m w5)] =>
    assert (S6 : stateless m)
      by (unfold make_gen_kwargs; destruct (can_generate lib mdl);
          [apply stateless_bind; [apply stateless_call | intros; apply stateless_ret]
          | apply stateless_ret]);
    destruct (Hstep _ m w5 S6) as [W6 T6]; set (w6 := snd (m w5)) in * end.
  apply bind_inv in E. destruct E as (raw & Eraw & E). apply observe_inv in Eraw.
  match type of E with context [snd (?m w6)] =>
    destruct (Hstep _ m w6 (Hcall _ _ _)) as [W7 T7]; set (w7 := snd (m w6)) in * end.
  apply bind_inv in E. destruct E as (sel & Esel & E).
  rewrite subsample_result in Esel. inversion Esel. subst sel.
  match type of E with context [snd (?m w7)] =>
    assert (S8 : stateless m)
      by (unfold subsample; destruct (max_eval_samples args) as [n |];
          [destruct (n >? 0);
           [apply stateless_bind; [apply stateless_print | intros; apply stateless_ret]
           | apply stateless_ret]
          | apply stateless_ret]);
    destruct (Hstep _ m w7 S8) as [W8 T8]; set (w8 := snd (m w7)) in * end.
  apply bind_inv in E. destruct E as (ds & Eds & E). apply observe_inv in Eds.
  match type of E with context [snd (?m w8)] =>
    destruct (Hstep _ m w8 (Hcall _ _ _)) as [W9 T9]; set (w9 := snd (m w8)) in * end.
  apply bind_inv in E. destruct E as (rows & Erows & E). inversion E.
  exists mdl, proc, name, gen, raw, ds, rows, w9.
  repeat split; auto; congruence.
Qed.

(** X6 (lines 36-99): the [transcription_time_s] list of a run is fixed by
    the clock and the batches alone: for the k-th batch, the difference
    between readings 2k+1 and 2k of the clock, divided by the size of the
    batch, once per sample.  Loading, preparing and normalising are outside
    the two readings. *)
Theorem timing_column_from_clock args w res :
  fst (evaluate lib args w) = Ok res ->
  exists raw ds,
    load_data lib args = Ok raw /\
    prepare_data lib (selected_rows args raw) = Ok ds /\
    transcription_time_s res
    = expected_times (wall w) (ticks w) (iter_batches (batch_size args) ds).
Proof.
  intros E. apply evaluate_inv_clock in E.
  destruct E as (mdl & proc & name & gen & raw & ds & rows & w' & W & T & _ & L & P & R & ->).
  exists raw, ds. split; [exact L | split; [exact P |]].
  unfold map_batched in R. apply bind_inv in R. destruct R as (per_batch & Ep & R).
  inversion R. apply map_batched_times in Ep.
  rewrite collect_columns. simpl. rewrite Ep, W, T. reflexivity.
Qed.
End Timing.

(** ** Total transcription time *)

Section TotalTime.
Local Open Scope Qc_scope.

Lemma Qc_of_nat_not_zero n : n <> 0%nat -> Qc_of_Z (Z.of_nat n) <> 0.
Proof.
  intros Hn E. unfold Qc_of_Z in E. apply Q2Qc_eq_iff in E.
  unfold Qeq in E. simpl in E. lia.
Qed.

Lemma expected_times_sum {A} (clock : nat -> Qc) (batches : list (list A)) :
  Forall (fun b => b <> []) batches ->
  forall t acc,
    fold_left Qcplus (expected_times clock t batches) acc
    = fold_left Qcplus (batch_runtimes clock t (List.length batches)) acc.
Proof.
  induction 1 as [| b batches Hb _ IH]; intros t acc; [reflexivity |].
  cbn [expected_times batch_runtimes List.length fold_left].
  rewrite fold_left_app, Qc_sum_repeat, IH. f_equal. f_equal.
  apply Qcmult_div_r. apply Qc_of_nat_not_zero.
  destruct b; [congruence | discriminate].
Qed.

(** X7 (lines 76-79, 118): in exact arithmetic the sum of all recorded
    transcription times, the denominator of RTFx, is the sum of the runtimes
    measured for the batches: what each batch took between its two clock
    readings, whatever the batch size. *)
Theorem total_time_is_sum_of_runtimes (lib : Library Qc) args w res :
  fst (evaluate lib args w) = Ok res ->
  exists raw ds,
    load_data lib args = Ok raw /\
    prepare_data lib (selected_rows args raw) = Ok ds /\
    py_sum (transcription_time_s res)
    = py_sum (batch_runtimes (wall w) (ticks w)
                (List.length (iter_batches (batch_size args) ds))).
Proof.
  intros E. apply evaluate_inv_clock in E.
  destruct E as (mdl & proc & name & gen & raw & ds & rows & w' & W & T & _ & L & P & R & ->).
  exists raw, ds. split; [exact L | split; [exact P |]].
  unfold map_batched in R. apply bind_inv in R. destruct R as (per_batch & Ep & R).
  inversion R. apply map_batched_times in Ep.
  rewrite collect_columns. simpl. rewrite Ep, W, T. unfold py_sum.
  apply expected_times_sum, iter_batches_nonempty.
Qed.
End TotalTime.

(** ** The exceptions of the script's own statements *)

Section OwnExceptions.
Context {F : Type} {PF : PyFloat F} (lib : Library F).
Variable P : exn -> Prop.

Lemma blames_ret {A} (a : A) : blames P (@ret F A a).
Proof. intros w. exact I. Qed.

Lemma blames_raise {A} e : P e -> blames P (@raise F A e).
Proof. intros He w. now left. Qed.

Lemma blames_lift {A} (r : result A) :
  (forall e, r = Raise e -> P e) -> blames P (@lift F A r).
Proof. intros H w. simpl. destruct r; auto. Qed.

Lemma blames_time : blames P (@time_time F).
Proof. intros w. exact I. Qed.

Lemma blames_print l : blames P (@print F l).
Proof. intros w. exact I. Qed.

Lemma blames_observe {A} ev (r : result A) : blames P (@observe F A ev r).
Proof.
  intros w. unfold observe. destruct r as [a | e]; simpl; auto.
  right. exists (trace w ++ [ev]). now rewrite <- app_assoc.
Qed.

Lemma blames_call {A} f (r : result A) : blames P (@call F A f r).
Proof. apply blames_observe. Qed.

Lemma blames_bind {A B} (m : M F A) (k : A -> M F B) :
  blames P m ->
  (forall a, (exists w, fst (m w) = Ok a) -> blames P (k a)) ->
  blames P (bind m k).
Proof.
  intros Hm Hk w. unfold bind. specialize (Hm w).
  destruct (m w) as [[a | e] w1] eqn:E; simpl in *.
  - apply Hk. exists w. now rewrite E.
  - exact Hm.
Qed.

Lemma blames_mapM {A B} (f : A -> M F B) l :
  (forall x, blames P (f x)) -> blames P (mapM f l).
Proof.
  intros Hf. induction l as [| x l IH]; simpl.
  - apply blames_ret.
  - apply blames_bind; auto. intros y _. apply blames_bind; auto.
    intros ys _. apply blames_ret.
Qed.
End OwnExceptions.

Section MainOwnExceptions.
Context {F : Type} {PF : PyFloat F} (lib : Library F).

Lemma make_gen_kwargs_bound mdl w gen :
  fst (make_gen_kwargs lib mdl w) = Ok gen ->
  can_generate lib mdl = true -> gen <> None.
Proof.
  intros E Hc. revert E. unfold make_gen_kwargs. rewrite Hc.
  unfold bind, call, observe, ret.
  destruct (is_multilingual lib mdl); simpl; intros X; inversion X; discriminate.
Qed.

Lemma benchmark_blames args mdl proc name gen b :
  (can_generate lib mdl = true -> gen <> None) ->
  blames own_exception (benchmark lib args mdl proc name gen b).
Proof.
  intros Hgen. unfold benchmark, transcribe, preprocess, use_longest.
  apply blames_bind; [apply blames_time | intros start_time _].
  apply blames_bind.
  - apply blames_bind.
    + apply blames_bind.
      * destruct (negb (can_generate lib mdl)); [apply blames_ret |].
        apply blames_bind.
        -- destruct (b_audio b); [apply blames_raise; now left | apply blames_ret].
        -- intros a _. apply blames_bind; [apply blames_call | intros; apply blames_ret].
      * intros [] _; apply blames_call.
    + intros x1 _. apply blames_bind; [apply blames_call | intros x2 _].
      apply blames_bind; [apply blames_call | intros x3 _].
      apply blames_bind; [| intros; apply blames_call].
      destruct (can_generate lib mdl); [| apply blames_call].
      apply blames_bind; [| intros; apply blames_call].
      destruct gen; [apply blames_ret | now destruct Hgen].
  - intros texts _. apply blames_bind; [apply blames_time | intros end_time _].
    apply blames_bind.
    + apply blames_lift. intros e E. apply truediv_raise in E. now right.
    + intros per _. apply blames_bind; [| intros; apply blames_ret].
      apply blames_mapM. intros; apply blames_call.
Qed.

Lemma main_blames args : blames own_exception (main lib args).
Proof.
  unfold main. apply blames_bind.
  - unfold evaluate.
    apply blames_bind; [apply blames_call | intros cfg _].
    apply blames_bind; [apply blames_call | intros mdl0 _].
    apply blames_bind; [apply blames_call | intros mdl _].
    apply blames_bind; [apply blames_call | intros proc _].
    apply blames_bind.
    { destruct (model_input_names lib proc);
        [apply blames_raise; now left | apply blames_ret]. }
    intros name _. apply blames_bind.
    { unfold make_gen_kwargs. destruct (can_generate lib mdl); [| apply blames_ret].
      apply blames_bind; [apply blames_call | intros; apply blames_ret]. }
    intros gen [w0 Hgen]. apply blames_bind; [apply blames_call | intros raw _].
    apply blames_bind.
    { unfold subsample. destruct (max_eval_samples args) as [n |]; [| apply blames_ret].
      destruct (n >? 0); [| apply blames_ret].
      apply blames_bind; [apply blames_print | intros; apply blames_ret]. }
    intros sel _. apply blames_bind; [apply blames_call | intros ds _].
    apply blames_bind; [| intros; apply blames_ret].
    unfold map_batched. apply blames_bind; [| intros; apply blames_ret].
    apply blames_mapM. intros rs.
    apply blames_bind; [| intros; apply blames_call].
    apply benchmark_blames. now apply (make_gen_kwargs_bound _ _ Hgen).
  - intros res _. unfold report.
    apply blames_bind; [apply blames_observe | intros path _].
    apply blames_bind; [apply blames_print | intros _ _].
    apply blames_bind; [apply blames_observe | intros wer _].
    apply blames_bind; [| intros; apply blames_print].
    apply blames_lift. unfold rtfx_of. intros e.
    destruct (truediv _ _) eqn:D; [discriminate |].
    intros E. inversion E. subst. apply truediv_raise in D. now right.
Qed.

(** X8 (lines 14-119): an exception that leaves [main] is one a library call
    raised, the last event of the run, or one of the two the script's own
    statements can raise: [IndexError] (an empty [model_input_names], an empty
    batch) and [ZeroDivisionError] (the two divisions).  [gen_kwargs], bound
    only under [model.can_generate()], is never read unbound. *)
Theorem exceptions_of_main args w e :
  fst (main lib args w) = Raise e ->
  e = IndexError \/ e = ZeroDivisionError \/
  exists pre, trace (snd (main lib args w)) = pre ++ [Raised e].
Proof.
  intros E. pose proof (main_blames args w) as H. rewrite E in H.
  destruct H as [[H | H] | H]; auto.
Qed.
End MainOwnExceptions.

(** ** The order of the report *)

Section ReportOrder.
Context {F : Type} {PF : PyFloat F} (lib : Library F).

(** A list with one element of a kind splits around it in one way. *)
Lemma split_at_the_only {X} (K : X -> Prop) : forall (a : list X) x b pre y post,
  (forall z, In z a -> ~ K z) -> (forall z, In z b -> ~ K z) -> K y ->
  a ++ x :: b = pre ++ y :: post ->
  pre = a /\ y = x /\ post = b.
Proof.
  induction a as [| z a IH]; intros x b pre y post Ha Hb Hy E.
  - destruct pre as [| z' pre]; simpl in E; inversion E; auto.
    subst. exfalso. apply (Hb y); [apply in_or_app; right; now left | exact Hy].
  - destruct pre as [| z' pre]; simpl in E; inversion E; subst.
    + exfalso. apply (Ha y); [now left | exact Hy].
    + destruct (IH x b pre y post) as (-> & -> & ->); auto.
      intros z Hz. apply Ha. now right.
Qed.

Lemma quiet_not_report (evs : list (event F)) :
  Forall quiet evs ->
  (forall r p, ~ In (CalledWer r p) evs) /\
  (forall a b, ~ In (Printed (Summary a b)) evs).
Proof.
  intros Hq. rewrite Forall_forall in Hq.
  split; intros x y Hin; apply Hq in Hin; exact Hin.
Qed.

(** X9 (lines 101-119): whenever [wer_metric.compute] is called, the two
    events just before it are the call of [write_manifest] on the same
    references and predictions and the line that tells where the results
    were saved; and the summary line is printed exactly when [main]
    returns. *)
Theorem manifest_before_wer args w evs :
  trace (snd (main lib args w)) = trace w ++ evs ->
  (forall r p pre post,
      evs = pre ++ CalledWer r p :: post ->
      exists pre1 al tt path,
        pre = pre1 ++ [CalledWriteManifest r p (model_id args) (dataset_path args)
                         (dataset args) (split args) al tt;
                       Printed (ResultsSaved path)]) /\
  ((exists a b, In (Printed (Summary a b)) evs) <-> fst (main lib args w) = Ok tt).
Proof.
  intros T. destruct (main_run lib args w) as (evs0 & Hq & _ & Hrun).
  apply quiet_not_report in Hq. destruct Hq as [Qw Qs].
  assert (Kw : forall z : event F, In z evs0 -> ~ (exists r p, z = CalledWer r p))
    by (intros z Hz (r & p & ->); now apply (Qw r p)).
  destruct (fst (evaluate lib args w)) as [res | e0].
  - destruct Hrun as [E T']. rewrite T' in T. apply app_inv_head in T. subst evs.
    rewrite E. clear E T'. unfold report_outcome.
    destruct (write_manifest _ _ _ _ _ _ _ _ _) as [path | e1].
    + assert (Hsplit : forall tail r p pre post,
                (forall z, In z tail -> ~ (exists r p, z = CalledWer r p)) ->
                evs0 ++ [CalledWriteManifest (references res) (predictions res)
                           (model_id args) (dataset_path args) (dataset args)
                           (split args) (audio_length_s res) (transcription_time_s res);
                         Printed (ResultsSaved (abspath lib path));
                         CalledWer (references res) (predictions res)] ++ tail
                = pre ++ CalledWer r p :: post ->
                exists pre1 al tt path',
                  pre = pre1 ++ [CalledWriteManifest r p (model_id args)
                                   (dataset_path args) (dataset args) (split args) al tt;
                                 Printed (ResultsSaved path')]).
      { intros tail r p pre post Ht Eq.
        change (evs0 ++ [?a; ?b; ?c] ++ tail) with (evs0 ++ [a; b] ++ c :: tail) in Eq.
        rewrite app_assoc in Eq.
        apply (split_at_the_only (fun z => exists r p, z = CalledWer r p)) in Eq; eauto.
        - destruct Eq as (-> & Ey & _). inversion Ey. subst. eauto.
        - intros z Hz. apply in_app_or in Hz. destruct Hz as [Hz | [Hz | [Hz | []]]];
            [now apply Kw | subst z; intros (? & ? & ?); discriminate
            | subst z; intros (? & ? & ?); discriminate]. }
      destruct (wer_compute _ _ _) as [wer | e1].
      * destruct (rtfx_of _ _) as [rtfx | e1]; simpl; split.
        -- intros r p pre post Eq.
           apply (Hsplit [Printed (Summary (round2 (fmul (of_int 100) wer)) rtfx)]
                    r p pre post); [| exact Eq].
           intros z [<- | []] (? & ? & ?). discriminate.
        -- split; [reflexivity |]. intros _. do 2 eexists.
           apply in_or_app. right. simpl. eauto.
        -- intros r p pre post Eq. apply (Hsplit [] r p pre post); [| exact Eq].
           intros z [].
        -- split; [| discriminate]. intros (a & b & Hin).
           apply in_app_or in Hin. destruct Hin as [Hin | [Hin | [Hin | [Hin | []]]]];
             try discriminate. now apply Qs in Hin.
      * simpl. split.
        -- intros r p pre post Eq. apply (Hsplit [Raised e1] r p pre post); [| exact Eq].
           intros z [<- | []] (? & ? & ?). discriminate.
        -- split; [| discriminate]. intros (a & b & Hin).
           apply in_app_or in Hin.
           destruct Hin as [Hin | [Hin | [Hin | [Hin | [Hin | []]]]]];
             try discriminate. now apply Qs in Hin.
    + simpl. split.
      * intros r p pre post Eq. exfalso.
        assert (Hin : In (CalledWer r p)
                         (evs0 ++ [CalledWriteManifest (references res) (predictions res)
                                     (model_id args) (dataset_path args) (dataset args)
                                     (split args) (audio_length_s res)
                                     (transcription_time_s res); Raised e1]))
          by (rewrite Eq; apply in_or_app; right; now left).
        apply in_app_or in Hin. destruct Hin as [Hin | [Hin | [Hin | []]]];
          try discriminate. now apply Qw in Hin.
      * split; [| discriminate]. intros (a & b & Hin).
        apply in_app_or in Hin. destruct Hin as [Hin | [Hin | [Hin | []]]];
          try discriminate. now apply Qs in Hin.
  - destruct Hrun as [E T']. rewrite T' in T. apply app_inv_head in T. subst evs.
    rewrite E. split.
    + intros r p pre post Eq. exfalso. apply (Qw r p). rewrite Eq.
      apply in_or_app. right. now left.
    + split; [| discriminate]. intros (a & b & Hin). now apply Qs in Hin.
Qed.
End ReportOrder.

(** ** [benchmark] on an empty batch *)

Section EmptyBatch.
Context {F : Type} {PF : PyFloat F} (lib : Library F).

(** X10 (lines 38-79): [benchmark] never returns on a batch without audio.
    For a model that can generate it raises [IndexError] at [audios[0]],
    before any library call; for another model it raises what a library
    call raises, or [ZeroDivisionError] when the runtime is divided by the
    batch size. *)
Theorem benchmark_rejects_empty_batch args mdl proc name gen (b : batch F) w :
  b_audio b = [] ->
  exists e,
    fst (benchmark lib args mdl proc name gen b w) = Raise e /\
    (can_generate lib mdl = true ->
     e = IndexError /\ trace (snd (benchmark lib args mdl proc name gen b w)) = trace w) /\
    (can_generate lib mdl = false ->
     e = ZeroDivisionError \/
     exists pre, trace (snd (benchmark lib args mdl proc name gen b w)) = pre ++ [Raised e]).
Proof.
  intros Hb.
  assert (Hraise : exists e, fst (benchmark lib args mdl proc name gen b w) = Raise e).
  { destruct (benchmark_result lib args mdl proc name gen b) as (r & Hr). rewrite Hr.
    destruct r as [texts | e]; [| eauto]. rewrite Hb. unfold truediv. simpl.
    rewrite is_zero_0. eauto. }
  destruct Hraise as [e He]. exists e. split; [exact He | split].
  - intros Hc. revert He. unfold benchmark, transcribe, preprocess, use_longest, bind.
    rewrite Hb, Hc. simpl. intros He. inversion He. auto.
  - intros Hc.
    assert (Hd : forall x : F, truediv x (of_int 0) = Raise ZeroDivisionError)
      by (intros x; unfold truediv; now rewrite is_zero_0).
    revert He.
    unfold benchmark, transcribe, preprocess, use_longest, bind, call, observe, lift.
    rewrite Hb, Hc. simpl.
    repeat first
      [ rewrite Hd
      | match goal with
        | |- context [match ?r with Ok _ => _ | Raise _ => _ end] => destruct r
        end ]; simpl;
      intros He; inversion He; subst; auto;
      right;
      match goal with
      | |- exists pre, ?l ++ [?ev; Raised ?e'] = _ =>
          exists (l ++ [ev]); exact (app_assoc l [ev] [Raised e'])
      end.
Qed.
End EmptyBatch.

(** ** How far the reported RTFx is from the quotient *)

Section ReportedRtfx.
Local Open Scope Q_scope.

Lemma round_half_even_close x :
  x - (1 # 2) <= inject_Z (round_half_even x) <= x + (1 # 2).
Proof.
  unfold round_half_even.
  pose proof (Qfloor_le x) as Hl. pose proof (Qlt_floor x) as Hu.
  rewrite inject_Z_plus in Hu.
  destruct (Qcompare_spec (x - inject_Z (Qfloor x)) (1 # 2)) as [E | L | G];
    [destruct (Z.even (Qfloor x)) | |]; rewrite ?inject_Z_plus;
    change (inject_Z 1) with 1 in *; lra.
Qed.

(** X11 (line 118): in exact arithmetic the reported RTFx is within 0.005
    of the sum of the audio durations divided by the sum of the
    transcription times. *)
Theorem reported_rtfx_close (audio times : list Qc) (r : Qc) :
  rtfx_of audio times = Ok r ->
  exists quotient : Qc,
    truediv (py_sum audio) (py_sum times) = Ok quotient /\
    (quotient - Q2Qc (1 # 200) <= r)%Qc /\ (r <= quotient + Q2Qc (1 # 200))%Qc.
Proof.
  intros E. apply rtfx_of_inv in E. destruct E as (quotient & D & ->).
  exists quotient. split; [exact D |].
  pose proof (round_half_even_close (100 * quotient)) as [Hl Hu].
  simpl round2. unfold Qc_round2, Qcle, Qcminus, Qcplus, Qcopp, Q2Qc. cbn [this].
  rewrite !Qred_correct. unfold Qdiv. change (/ 100) with (1 # 100).
  split; lra.
Qed.
End ReportedRtfx.

(** ** Runs with the example library, continued *)

Lemma absent_options_keep_defaults_witness :
  fst (Argparse.script_args Argparse.demo_argv)
    = Ok (value_or [] (fst (Argparse.script_args Argparse.demo_argv))) /\
  Argparse.getattr (value_or [] (fst (Argparse.script_args Argparse.demo_argv))) "split"
    = Some (Argparse.VStr "test").
Proof.
  assert (H : fst (Argparse.script_args Argparse.demo_argv)
              = Ok (value_or [] (fst (Argparse.script_args Argparse.demo_argv))))
    by (vm_compute; reflexivity).
  split; [exact H |].
  destruct (@CommandLine.absent_options_keep_defaults Argparse.demo_argv _ H)
    as (_ & S & _).
  apply S. reflexivity.
Defined.

Lemma required_options_present_witness :
  fst (Argparse.script_args Argparse.demo_argv)
    = Ok (value_or [] (fst (Argparse.script_args Argparse.demo_argv))) /\
  Argparse.occurs "--model_id" Argparse.demo_argv = true.
Proof.
  assert (H : fst (Argparse.script_args Argparse.demo_argv)
              = Ok (value_or [] (fst (Argparse.script_args Argparse.demo_argv))))
    by (vm_compute; reflexivity).
  split; [exact H |].
  exact (proj1 (@CommandLine.required_options_present Argparse.demo_argv _ H)).
Defined.

Lemma last_occurrence_wins_witness :
  let argv := Argparse.demo_argv ++ [("--batch_size", Some "8")] in
  fst (Argparse.script_args argv) = Ok (value_or [] (fst (Argparse.script_args argv))) /\
  Argparse.getattr (value_or [] (fst (Argparse.script_args argv))) "batch_size"
    = Argparse.convert Argparse.TInt "8".
Proof.
  intros argv.
  assert (H : fst (Argparse.script_args argv)
              = Ok (value_or [] (fst (Argparse.script_args argv))))
    by (vm_compute; reflexivity).
  split; [exact H |].
  refine (proj1 (@CommandLine.last_occurrence_wins "--batch_size" "batch_size"
                   Argparse.TInt argv _ Argparse.demo_argv "8" [] _ H eq_refl eq_refl)).
  unfold Argparse.store_options. simpl. auto 10.
Defined.

Lemma timing_column_from_clock_witness :
  fst (evaluate demo_lib demo_args (boot steady_clock)) = Ok demo_results /\
  exists ds : list (sample Qc),
    transcription_time_s demo_results
    = expected_times steady_clock 0 (iter_batches 2 ds).
Proof.
  assert (H : fst (evaluate demo_lib demo_args (boot steady_clock)) = Ok demo_results)
    by (vm_compute; reflexivity).
  split; [exact H |].
  destruct (timing_column_from_clock demo_lib demo_args (boot steady_clock) H)
    as (raw & ds & _ & _ & T).
  exists ds. exact T.
Defined.

Lemma total_time_is_sum_of_runtimes_witness :
  fst (evaluate demo_lib demo_args (boot steady_clock)) = Ok demo_results /\
  exists k,
    py_sum (transcription_time_s demo_results)
    = py_sum (batch_runtimes steady_clock 0 k).
Proof.
  assert (H : fst (evaluate demo_lib demo_args (boot steady_clock)) = Ok demo_results)
    by (vm_compute; reflexivity).
  split; [exact H |].
  destruct (@total_time_is_sum_of_runtimes demo_lib demo_args (boot steady_clock) _ H)
    as (raw & ds & _ & _ & T).
  eexists. exact T.
Defined.

Lemma exceptions_of_main_witness :
  fst (main failing_lib demo_args (boot steady_clock)) = Raise out_of_memory /\
  (out_of_memory = IndexError \/ out_of_memory = ZeroDivisionError \/
   exists pre, trace (snd (main failing_lib demo_args (boot steady_clock)))
               = pre ++ [Raised out_of_memory]).
Proof.
  assert (H : fst (main failing_lib demo_args (boot steady_clock)) = Raise out_of_memory)
    by (vm_compute; reflexivity).
  split; [exact H |].
  exact (@exceptions_of_main _ _ failing_lib demo_args (boot steady_clock) _ H).
Defined.

Lemma manifest_before_wer_witness :
  trace (snd (main demo_lib demo_args (boot steady_clock)))
    = trace (boot steady_clock)
      ++ trace (snd (main demo_lib demo_args (boot steady_clock))) /\
  ((exists a b, In (Printed (Summary a b))
                   (trace (snd (main demo_lib demo_args (boot steady_clock)))))
   <-> fst (main demo_lib demo_args (boot steady_clock)) = Ok tt).
Proof.
  split; [reflexivity |].
  exact (proj2 (@manifest_before_wer _ _ demo_lib demo_args (boot steady_clock)
                  (trace (snd (main demo_lib demo_args (boot steady_clock)))) eq_refl)).
Defined.

Lemma benchmark_rejects_empty_batch_witness :
  b_audio (to_batch (@nil (sample Qc))) = [] /\
  exists e,
    fst (benchmark demo_lib demo_args tt tt "input_features" (Some demo_gen)
           (to_batch []) (boot steady_clock)) = Raise e /\
    e = IndexError.
Proof.
  split; [reflexivity |].
  destruct (@benchmark_rejects_empty_batch _ _ demo_lib demo_args tt tt "input_features"
              (Some demo_gen) (to_batch []) (boot steady_clock) eq_refl)
    as (e & He & Hg & _).
  exists e. split; [exact He |]. exact (proj1 (Hg eq_refl)).
Defined.

Lemma reported_rtfx_close_witness :
  rtfx_of [q 1000 1] [q 30 1] = Ok (value_or (q 0 1) (rtfx_of [q 1000 1] [q 30 1])) /\
  exists quotient : Qc,
    (quotient - Q2Qc (1 # 200) <= value_or (q 0 1) (rtfx_of [q 1000 1] [q 30 1]))%Qc.
Proof.
  assert (H : rtfx_of [q 1000 1] [q 30 1]
              = Ok (value_or (q 0 1) (rtfx_of [q 1000 1] [q 30 1])))
    by (vm_compute; reflexivity).
  split; [exact H |].
  destruct (@reported_rtfx_close _ _ _ H) as (quotient & _ & L & _).
  exists quotient. exact L.
Defined.

(** ** What does not depend on the clock *)

Section ClockFree.
Context {F : Type} {PF : PyFloat F} (lib : Library F).

Lemma clock_free_stateless {A B} (g : A -> B) (m : M F A) :
  stateless m -> clock_free g m.
Proof. intros (r & evs & Hm). exists (result_map g r). intros w. now rewrite Hm. Qed.

Lemma clock_free_bind {A B C} (g : B -> C) (m : M F A) (k : A -> M F B) :
  stateless m -> (forall a, clock_free g (k a)) -> clock_free g (bind m k).
Proof.
  intros (r & evs & Hm) Hk. destruct r as [a | e].
  - destruct (Hk a) as (c & Hc). exists c. intros w. unfold bind. rewrite Hm. apply Hc.
  - exists (Raise e). intros w. unfold bind. now rewrite Hm.
Qed.

Lemma untimed_zip_rows : forall (nt : list string) (al t1 t2 : list F)
                                (pr rf : list string),
  List.length t1 = List.length t2 ->
  untimed (zip_rows nt al t1 pr rf) = untimed (zip_rows nt al t2 pr rf).
Proof.
  unfold untimed.
  induction nt as [| a nt IH]; intros [| b al] [| c1 t1] [| c2 t2] [| d pr] [| e rf] L;
    simpl in *; try discriminate; auto.
  injection L as L. f_equal. now apply IH.
Qed.

Lemma to_examples_untimed nt al (t1 t2 : list F) pr rf au :
  List.length t1 = List.length t2 ->
  result_map untimed (to_examples {| m_audio := au; m_norm_text := nt;
                                     m_audio_length_s := al;
                                     m_transcription_time_s := t1;
                                     m_predictions := pr; m_references := rf |})
  = result_map untimed (to_examples {| m_audio := au; m_norm_text := nt;
                                       m_audio_length_s := al;
                                       m_transcription_time_s := t2;
                                       m_predictions := pr; m_references := rf |}).
Proof.
  intros L. unfold to_examples. simpl. rewrite L.
  destruct (_ && _); simpl; [| reflexivity]. f_equal. now apply untimed_zip_rows.
Qed.

Lemma map_step_clock_free args mdl proc name gen (rs : list (sample F)) :
  clock_free untimed
    (mb <- benchmark lib args mdl proc name gen (to_batch rs) ;;
     call "dataset.map" (to_examples mb)).
Proof.
  destruct (benchmark_result lib args mdl proc name gen (to_batch rs)) as (r & Hr).
  set (n := List.length (b_audio (to_batch rs))) in *.
  set (shape := fun times : list F =>
         {| m_audio := b_audio (to_batch rs); m_norm_text := b_norm_text (to_batch rs);
            m_audio_length_s := b_audio_length_s (to_batch rs);
            m_transcription_time_s := times; m_predictions := [];
            m_references := b_norm_text (to_batch rs) |}).
  assert (Hfst : forall w,
            fst ((mb <- benchmark lib args mdl proc name gen (to_batch rs) ;;
                  call "dataset.map" (to_examples mb)) w)
            = match fst (benchmark lib args mdl proc name gen (to_batch rs) w) with
              | Ok mb => to_examples mb
              | Raise e => Raise e
              end).
  { intros w. unfold bind.
    destruct (benchmark lib args mdl proc name gen (to_batch rs) w) as [[mb | e] w1];
      simpl; [| reflexivity].
    unfold call, observe. now destruct (to_examples mb). }
  destruct r as [texts | e].
  2: { exists (Raise e). intros w. now rewrite Hfst, Hr. }
  destruct (is_zero (of_int (Z.of_nat n))) eqn:Z.
  { exists (Raise ZeroDivisionError). intros w. rewrite Hfst, Hr. unfold truediv.
    fold n. now rewrite Z. }
  destruct (normalize_all_stateless lib texts) as (rn & evsn & Hn).
  destruct rn as [preds | e].
  2: { exists (Raise e). intros w. rewrite Hfst, Hr. unfold truediv. fold n.
       now rewrite Z, Hn. }
  exists (result_map untimed
            (to_examples {| m_audio := b_audio (to_batch rs);
                            m_norm_text := b_norm_text (to_batch rs);
                            m_audio_length_s := b_audio_length_s (to_batch rs);
                            m_transcription_time_s := repeat (of_int 0) n;
                            m_predictions := preds;
                            m_references := b_norm_text (to_batch rs) |})).
  intros w. rewrite Hfst, Hr. unfold truediv. fold n. rewrite Z, Hn. simpl fst.
  apply to_examples_untimed. now rewrite !repeat_length.
Qed.

Lemma mapM_clock_free {A} (f : A -> M F (list (result_row F))) l :
  (forall x, clock_free untimed (f x)) -> clock_free (map untimed) (mapM f l).
Proof.
  intros Hf. induction l as [| x l (cl & Hl)]; simpl.
  - exists (Ok []). reflexivity.
  - destruct (Hf x) as (cx & Hx).
    exists (match cx, cl with
            | Ok u, Ok us => Ok (u :: us)
            | Ok _, Raise e => Raise e
            | Raise e, _ => Raise e
            end).
    intros w. unfold bind. specialize (Hx w).
    destruct (f x w) as [[y | e] w1]; simpl in *; subst cx; [| reflexivity].
    specialize (Hl w1). destruct (mapM f l w1) as [[ys | e] w2]; simpl in *;
      subst cl; reflexivity.
Qed.

Lemma map_batched_clock_free args mdl proc name gen bs ds :
  clock_free untimed_results
    (rows <- map_batched (benchmark lib args mdl proc name gen) bs ds ;;
     ret (collect rows)).
Proof.
  destruct (@mapM_clock_free _
              (fun rs => mb <- benchmark lib args mdl proc name gen (to_batch rs) ;;
                         call "dataset.map" (to_examples mb))
              (iter_batches bs ds)
              (map_step_clock_free args mdl proc name gen)) as (c & Hc).
  assert (Hfst : forall w,
            fst ((rows <- map_batched (benchmark lib args mdl proc name gen) bs ds ;;
                  ret (collect rows)) w)
            = result_map (fun per => collect (concat per))
                (fst (mapM (fun rs => mb <- benchmark lib args mdl proc name gen
                                              (to_batch rs) ;;
                                     call "dataset.map" (to_examples mb))
                           (iter_batches bs ds) w))).
  { intros w. unfold map_batched, bind, ret.
    now destruct (mapM _ _ w) as [[per | e] w1]. }
  destruct c as [us | e].
  - assert (Hex : forall w, exists per,
              fst (mapM (fun rs => mb <- benchmark lib args mdl proc name gen
                                           (to_batch rs) ;;
                                  call "dataset.map" (to_examples mb))
                        (iter_batches bs ds) w) = Ok per /\ map untimed per = us).
    { intros w. specialize (Hc w). destruct (fst (mapM _ _ w)) as [per | e];
        simpl in Hc; inversion Hc. eauto. }
    exists (Ok (map (fun t => snd (fst (fst t))) (concat us),
                map (fun t => snd (fst t)) (concat us),
                map (fun t => snd t) (concat us))).
    intros w. rewrite Hfst. destruct (Hex w) as (per & -> & Hu). simpl. f_equal.
    subst us. rewrite collect_columns. unfold untimed_results, untimed. simpl.
    rewrite <- !concat_map, !map_map. reflexivity.
  - exists (Raise e). intros w. rewrite Hfst. specialize (Hc w).
    destruct (fst (mapM _ _ w)); simpl in *; congruence.
Qed.

(** X12 (lines 36-99): the clock decides the transcription times and nothing
    else.  In any two worlds the evaluation raises the same exception or
    collects the same audio durations, predictions and references, so the
    manifest texts and WER do not depend on timing. *)
Theorem evaluation_but_for_timing args w1 w2 :
  result_map untimed_results (fst (evaluate lib args w1))
  = result_map untimed_results (fst (evaluate lib args w2)).
Proof.
  assert (H : clock_free untimed_results (evaluate lib args)).
  { unfold evaluate.
    apply clock_free_bind; [apply stateless_call | intros cfg].
    apply clock_free_bind; [apply stateless_call | intros mdl0].
    apply clock_free_bind; [apply stateless_call | intros mdl].
    apply clock_free_bind; [apply stateless_call | intros proc].
    apply clock_free_bind.
    { destruct (model_input_names lib proc); auto using stateless_raise, stateless_ret. }
    intros name. apply clock_free_bind.
    { unfold make_gen_kwargs. destruct (can_generate lib mdl); [| apply stateless_ret].
      apply stateless_bind; [apply stateless_call | intros; apply stateless_ret]. }
    intros gen. apply clock_free_bind; [apply stateless_call | intros raw].
    apply clock_free_bind.
    { unfold subsample. destruct (max_eval_samples args) as [n |]; [| apply stateless_ret].
      destruct (n >? 0); [| apply stateless_ret].
      apply stateless_bind; [apply stateless_print | intros; apply stateless_ret]. }
    intros sel. apply clock_free_bind; [apply stateless_call | intros ds].
    apply map_batched_clock_free. }
  destruct H as (c & Hc). now rewrite !Hc.
Qed.
End ClockFree.

(** ** [benchmark] with libraries that keep a state *)

Module StatefulFacts.

Section Composition.
Context {F S : Type}.

Lemma state_only_lift {A} (r : result A) : Stateful.state_only (@Stateful.lift F S A r).
Proof.
  intros w1 w2 H. simpl. split; [reflexivity | split; [exact H |]].
  exists []. now rewrite !emit_nil.
Qed.

Lemma state_only_ret {A} (a : A) : Stateful.state_only (@Stateful.ret F S A a).
Proof. apply (state_only_lift (Ok a)). Qed.

Lemma state_only_raise {A} e : Stateful.state_only (@Stateful.raise F S A e).
Proof. apply (state_only_lift (Raise e)). Qed.

Lemma state_only_call {A} f (oracle : S -> result A * S) :
  Stateful.state_only (@Stateful.call F S A f oracle).
Proof.
  intros w1 w2 H. unfold Stateful.call. rewrite H.
  destruct (oracle (Stateful.hidden w2)) as [[a | e] s]; simpl;
    (split; [reflexivity | split; [reflexivity |]]); eauto.
Qed.

Lemma state_only_bind {A B} (m : Stateful.LM F S A) (k : A -> Stateful.LM F S B) :
  Stateful.state_only m -> (forall a, Stateful.state_only (k a)) ->
  Stateful.state_only (Stateful.bind m k).
Proof.
  intros Hm Hk w1 w2 H. destruct (Hm w1 w2 H) as (R & Hh & evs & V1 & V2).
  unfold Stateful.bind. destruct (m w1) as [r1 w1'], (m w2) as [r2 w2'].
  simpl in *. subst r2. destruct r1 as [a | e]; simpl.
  - destruct (Hk a w1' w2' Hh) as (R' & Hh' & evs' & V1' & V2').
    split; [exact R' | split; [exact Hh' |]].
    exists (evs ++ evs'). now rewrite V1', V2', V1, V2, !emit_emit.
  - split; [reflexivity | split; [exact Hh |]]. eauto.
Qed.

Lemma state_only_mapM {A B} (f : A -> Stateful.LM F S B) l :
  (forall x, Stateful.state_only (f x)) -> Stateful.state_only (Stateful.mapM f l).
Proof.
  intros Hf. induction l as [| x l IH]; simpl.
  - apply state_only_ret.
  - apply state_only_bind; auto. intros y. apply state_only_bind; auto.
    intros ys. apply state_only_ret.
Qed.

Lemma mirrors_lift {A} (r : result A) :
  Stateful.mirrors (lift r) (@Stateful.lift F S A r).
Proof. intros w s. reflexivity. Qed.

Lemma mirrors_ret {A} (a : A) : Stateful.mirrors (ret a) (@Stateful.ret F S A a).
Proof. intros w s. reflexivity. Qed.

Lemma mirrors_raise {A} e : Stateful.mirrors (raise e) (@Stateful.raise F S A e).
Proof. intros w s. reflexivity. Qed.

Lemma mirrors_time : Stateful.mirrors time_time (@Stateful.time_time F S).
Proof. intros w s. reflexivity. Qed.

Lemma mirrors_call {A} f (r : result A) :
  Stateful.mirrors (call f r) (@Stateful.call F S A f (fun s => (r, s))).
Proof. intros w s. unfold Stateful.call, call, observe. now destruct r. Qed.

Lemma mirrors_bind {A B} (m : M F A) (k : A -> M F B)
    (m' : Stateful.LM F S A) (k' : A -> Stateful.LM F S B) :
  Stateful.mirrors m m' -> (forall a, Stateful.mirrors (k a) (k' a)) ->
  Stateful.mirrors (bind m k) (Stateful.bind m' k').
Proof.
  intros Hm Hk w s. unfold Stateful.bind, bind. rewrite Hm.
  destruct (m w) as [[a | e] w1]; simpl; [apply Hk | reflexivity].
Qed.

Lemma mirrors_mapM {A B} (f : A -> M F B) (f' : A -> Stateful.LM F S B) l :
  (forall x, Stateful.mirrors (f x) (f' x)) ->
  Stateful.mirrors (mapM f l) (Stateful.mapM f' l).
Proof.
  intros Hf. induction l as [| x l IH]; simpl.
  - apply mirrors_ret.
  - apply mirrors_bind; auto. intros y. apply mirrors_bind; auto.
    intros ys. apply mirrors_ret.
Qed.
End Composition.

Section Benchmark.
Context {F S : Type} {PF : PyFloat F}.

(** With a library that keeps no state, the two embeddings of [benchmark]
    are one. *)
Lemma benchmark_of_pure (lib : Library F) args mdl proc name gen (b : batch F) :
  Stateful.mirrors (benchmark lib args mdl proc name gen b)
    (Stateful.benchmark (of_pure S lib) args mdl proc name gen b).
Proof.
  unfold Stateful.benchmark, benchmark.
  apply mirrors_bind; [apply mirrors_time | intros start_time].
  apply mirrors_bind.
  - unfold Stateful.transcribe, transcribe.
    apply mirrors_bind.
    + unfold Stateful.preprocess, preprocess. apply mirrors_bind.
      * unfold Stateful.use_longest, use_longest. simpl.
        destruct (negb (can_generate lib mdl)); [apply mirrors_ret |].
        apply mirrors_bind.
        -- destruct (b_audio b); [apply mirrors_raise | apply mirrors_ret].
        -- intros a. apply mirrors_bind; [apply mirrors_call | intros; apply mirrors_ret].
      * intros []; apply mirrors_call.
    + intros x1. apply mirrors_bind; [apply mirrors_call | intros x2].
      apply mirrors_bind; [apply mirrors_call | intros x3].
      apply mirrors_bind; [| intros; apply mirrors_call]. simpl.
      destruct (can_generate lib mdl); [| apply mirrors_call].
      apply mirrors_bind; [| intros; apply mirrors_call].
      destruct gen; [apply mirrors_ret | apply mirrors_raise].
  - intros texts. apply mirrors_bind; [apply mirrors_time | intros end_time].
    apply mirrors_bind; [apply mirrors_lift | intros per].
    apply mirrors_bind; [| intros; apply mirrors_ret].
    unfold Stateful.normalize_all. apply mirrors_mapM. intros; apply mirrors_call.
Qed.

Variable lib : Stateful.Library F S.

Lemma transcribe_state_only args mdl proc name gen audios :
  Stateful.state_only (Stateful.transcribe lib args mdl proc name gen audios).
Proof.
  unfold Stateful.transcribe, Stateful.preprocess, Stateful.use_longest.
  apply state_only_bind.
  - apply state_only_bind.
    + destruct (negb (Stateful.can_generate lib mdl)); [apply state_only_ret |].
      apply state_only_bind.
      * destruct audios; [apply state_only_raise | apply state_only_ret].
      * intros a. apply state_only_bind; [apply state_only_call |].
        intros; apply state_only_ret.
    + intros []; apply state_only_call.
  - intros x1. apply state_only_bind; [apply state_only_call | intros x2].
    apply state_only_bind; [apply state_only_call | intros x3].
    apply state_only_bind; [| intros; apply state_only_call].
    destruct (Stateful.can_generate lib mdl); [| apply state_only_call].
    apply state_only_bind; [| intros; apply state_only_call].
    destruct gen; [apply state_only_ret | apply state_only_raise].
Qed.

Lemma normalize_all_state_only texts :
  Stateful.state_only (Stateful.normalize_all lib texts).
Proof. apply state_only_mapM. intros; apply state_only_call. Qed.

(** [benchmark], step by step. *)
Lemma benchmark_steps args mdl proc name gen (b : batch F) w :
  Stateful.benchmark lib args mdl proc name gen b w =
  let n := List.length (b_audio b) in
  let v := Stateful.visible w in
  let w0 := {| Stateful.visible := snd (time_time v);
               Stateful.hidden := Stateful.hidden w |} in
  match Stateful.transcribe lib args mdl proc name gen (b_audio b) w0 with
  | (Raise e, w1) => (Raise e, w1)
  | (Ok texts, w1) =>
      let v1 := Stateful.visible w1 in
      let w2 := {| Stateful.visible := snd (time_time v1);
                   Stateful.hidden := Stateful.hidden w1 |} in
      match truediv (fsub (wall v1 (ticks v1)) (wall v (ticks v)))
                    (of_int (Z.of_nat n)) with
      | Raise e => (Raise e, w2)
      | Ok per =>
          match Stateful.normalize_all lib texts w2 with
          | (Raise e, w3) => (Raise e, w3)
          | (Ok preds, w3) =>
              (Ok {| m_audio := b_audio b;
                     m_norm_text := b_norm_text b;
                     m_audio_length_s := b_audio_length_s b;
                     m_transcription_time_s := repeat per n;
                     m_predictions := preds;
                     m_references := b_norm_text b |}, w3)
          end
      end
  end.
Proof.
  unfold Stateful.benchmark, Stateful.bind, Stateful.time_time, Stateful.lift,
    Stateful.ret. cbv zeta. cbn [fst snd time_time].
  destruct (Stateful.transcribe _ _ _ _ _ _ _ _) as [[texts | e] w1]; [| reflexivity].
  cbn [fst snd]. destruct (truediv _ _) as [per | e]; [| reflexivity].
  destruct (Stateful.normalize_all _ _ _) as [[preds | e] w3]; [| reflexivity].
  now rewrite Nat2Z.id.
Qed.

End Benchmark.
End StatefulFacts.


(** A library that keeps a state carries it from one batch to the next: the
    same batch, given twice in a row to a decoder that gives up after six
    calls, is transcribed the first time and raises the second time. *)
Lemma library_state_reaches_the_next_batch :
  let lib := Stateful.counting_library (F := Qc) 6 in
  let run :=
    Stateful.benchmark lib demo_args tt tt "input_features" (Some demo_gen)
      (to_batch utterances) in
  let first := run {| Stateful.visible := boot steady_clock; Stateful.hidden := 0%nat |} in
  let second := run (snd first) in
  result_map (@m_predictions Qc) (fst first) = Ok ["yes"; "no"; "yes"] /\
  Stateful.hidden (snd first) = 9%nat /\
  fst second = Raise (LibraryError "out of budget").
Proof. repeat split; vm_compute; reflexivity. Qed.
